(** * s3vfs: a file-tree view of an S3 bucket

    A shallow embedding of [s3vfs.go].  The Go code talks to the network
    through [net/http] and the [s3util] client library; here every such
    call is an action on an explicit [World], the ordered log of what has
    been sent, read and closed so far, and the answers come from an
    environment [Env] that stands for the backend and for the pure
    standard-library helpers whose text is not part of the package. *)

From Stdlib Require Import ZArith List String Ascii Bool Lia.
From Stdlib Require Import DecimalString.
Import ListNotations.

Local Open Scope string_scope.
Local Open Scope Z_scope.

(** ** Machine integers *)

(** Go's [int64]: a [Z] kept in range by wrapping after every operation. *)
Module Int64.

Definition modulus : Z := 2 ^ 64.
Definition min_signed : Z := - 2 ^ 63.
Definition max_signed : Z := 2 ^ 63 - 1.

Definition in_range (x : Z) : Prop := min_signed <= x <= max_signed.

Definition wrap (x : Z) : Z := (x + 2 ^ 63) mod modulus - 2 ^ 63.

Definition add (x y : Z) : Z := wrap (x + y).
Definition sub (x y : Z) : Z := wrap (x - y).
Definition mul (x y : Z) : Z := wrap (x * y).

End Int64.

(** ** Strings *)

(** [len(s)] as an [int64]. *)
Definition len (s : string) : Z := Z.of_nat (String.length s).

(** [fmt]'s [%d] verb for an integer. *)
Definition fmt_d (x : Z) : string := NilZero.string_of_int (Z.to_int x).

(** [strings.TrimPrefix]. *)
Definition TrimPrefix (s pre : string) : string :=
  if String.prefix pre s
  then substring (String.length pre) (String.length s - String.length pre) s
  else s.

Definition is_sep (c : ascii) : bool := Ascii.eqb c "/"%char.
Definition is_dot (c : ascii) : bool := Ascii.eqb c "."%char.

(** *** [filepath.Clean]

    The standard library's lexical path cleaner, for the slash separator.
    The Go loop walks an index [r] over the path and writes into a buffer
    of which the first [w] bytes count; here the unread part of the path is
    the list [rest], the buffer is kept reversed in [out], and [dotdot] is
    the buffer index below which a [..] element may not backtrack. *)
Module Cleaner.

Fixpoint backtrack (dotdot : nat) (out : list ascii) : list ascii :=
  match out with
  | [] => []
  | c :: t =>
      if (Nat.ltb dotdot (List.length t) && negb (is_sep c))%bool
      then backtrack dotdot t
      else t
  end.

Fixpoint copy_element (rest out : list ascii) : list ascii * list ascii :=
  match rest with
  | [] => ([], out)
  | c :: t => if is_sep c then (rest, out) else copy_element t (c :: out)
  end.

Definition at_end_or_sep (rest : list ascii) : bool :=
  match rest with
  | [] => true
  | c :: _ => is_sep c
  end.

Fixpoint loop (fuel : nat) (rooted : bool) (rest out : list ascii)
  (dotdot : nat) : list ascii :=
  match fuel with
  | O => out
  | S fuel' =>
      match rest with
      | [] => out
      | c :: t =>
          if is_sep c then loop fuel' rooted t out dotdot
          else if (is_dot c && at_end_or_sep t)%bool
          then loop fuel' rooted t out dotdot
          else if (is_dot c
                   && match t with
                      | d :: t' => is_dot d && at_end_or_sep t'
                      | [] => false
                      end)%bool
          then
            let t' := List.tl t in
            if Nat.ltb dotdot (List.length out)
            then loop fuel' rooted t' (backtrack dotdot out) dotdot
            else if negb rooted
            then
              let out1 := if Nat.ltb 0 (List.length out)
                          then "/"%char :: out else out in
              let out2 := "."%char :: "."%char :: out1 in
              loop fuel' rooted t' out2 (List.length out2)
            else loop fuel' rooted t' out dotdot
          else
            let w := List.length out in
            let out1 :=
              if ((rooted && negb (Nat.eqb w 1))
                  || (negb rooted && negb (Nat.eqb w 0)))%bool
              then "/"%char :: out else out in
            let '(rest', out2) := copy_element rest out1 in
            loop fuel' rooted rest' out2 dotdot
      end
  end.

Definition Clean (path : string) : string :=
  let p := list_ascii_of_string path in
  match p with
  | [] => "."
  | c :: t =>
      let rooted := is_sep c in
      let out :=
        if rooted
        then loop (S (List.length p)) true t ["/"%char] 1
        else loop (S (List.length p)) false p [] 0 in
      match out with
      | [] => "."
      | _ => string_of_list_ascii (List.rev out)
      end
  end.

End Cleaner.

Definition filepath_Clean : string -> string := Cleaner.Clean.

(** [path.Join] of two elements: empty elements are dropped, the rest are
    joined with a slash and cleaned (the empty join stays empty). *)
Definition pathpkg_Join (a b : string) : string :=
  match a, b with
  | EmptyString, EmptyString => ""
  | EmptyString, _ => Cleaner.Clean b
  | _, EmptyString => Cleaner.Clean a
  | _, _ => Cleaner.Clean (a ++ "/" ++ b)
  end.

(** [path.Base]: the last element of a path, trailing slashes removed. *)
Fixpoint strip_seps (l : list ascii) : list ascii :=
  match l with
  | c :: t => if is_sep c then strip_seps t else l
  | [] => []
  end.

Fixpoint take_element (l : list ascii) : list ascii :=
  match l with
  | c :: t => if is_sep c then [] else c :: take_element t
  | [] => []
  end.

Definition pathpkg_Base (path : string) : string :=
  match path with
  | EmptyString => "."
  | _ =>
      let r := strip_seps (List.rev (list_ascii_of_string path)) in
      match r with
      | [] => "/"
      | _ => string_of_list_ascii (List.rev (take_element r))
      end
  end.

(** ** Errors *)

(** The error values the package creates or passes on.  [Foreign] stands
    for an error value made outside the package (transport, decoder, body
    stream, URL parser); [s3utilError] is the client library's own
    status error. *)
Inductive error : Type :=
| errMustFetch                       (* errors.New, in Seek *)
| errRelOfs
| errNotFetched (start end_ startByte endByte ofs : Z)  (* fmt.Errorf, in Read *)
| ErrNotExist                        (* os.ErrNotExist *)
| PathError (Op Path : string) (Err : error)            (* os.PathError *)
| respError (StatusCode : Z) (b : string)
| s3utilError (StatusCode : Z) (b : string)
| EOF                                (* io.EOF *)
| errWhence                          (* bytes.Reader.Seek: invalid whence *)
| errNegative                        (* bytes.Reader.Seek: negative position *)
| errBodyClosed                      (* read on a closed response body *)
| Foreign (msg : string).

(** The text of the errors whose message is fixed in the package. *)
Definition Error (e : error) : option string :=
  match e with
  | errMustFetch => Some "s3vfs: must call Fetch before Seek"
  | errRelOfs =>
      Some "s3vfs: seek to offset relative to end of file is not supported"
  | errNotFetched start end_ sb eb ofs =>
      Some ("s3vfs: range " ++ fmt_d start ++ "-" ++ fmt_d end_
            ++ " not fetched (" ++ fmt_d sb ++ "-" ++ fmt_d eb
            ++ " fetched; offset " ++ fmt_d ofs ++ ")")
  | _ => None
  end.

(** Usage errors: the caller used the reader out of order or asked for
    what it does not offer. *)
Definition is_usage (e : error) : bool :=
  match e with
  | errMustFetch | errRelOfs | errNotFetched _ _ _ _ _ => true
  | _ => false
  end.

(** ** HTTP *)

Inductive method : Type := GET | HEAD | DELETE.

(** A request as far as the package shapes it: method, target, and the
    [range] header.  The [Date] header and the signature only add headers
    that nothing here reads back. *)
Record Request : Type := {
  Method : method;
  Target : string;
  Range : option string
}.

(** What a server sends back: the bytes its body yields before it ends or
    fails, and the errors reading and closing the body may give. *)
Record Body : Type := {
  content : string;
  read_err : option error;
  close_err : option error
}.

Record Reply : Type := {
  reply_status : Z;
  reply_length : Z;               (* Content-Length *)
  reply_last_modified : string;   (* the last-modified header, empty if absent *)
  reply_body : Body
}.

(** [resp.Body]: a stream that remembers whether it has been closed. *)
Record Stream : Type := { src : Body; closed : bool }.

(** [*http.Response]. *)
Record Response : Type := {
  StatusCode : Z;
  ContentLength : Z;
  last_modified : string;
  RespBody : Stream
}.

Definition StatusOK : Z := 200.
Definition StatusNoContent : Z := 204.
Definition StatusPartialContent : Z := 206.
Definition StatusNotFound : Z := 404.

(** [bytes.Reader]: the bytes and the read position. *)
Record bytesReader : Type := { s : string; i : Z }.

(** ** The world *)

Inductive Event : Type :=
| EvRoundTrip (req : Request)     (* one request put on the wire *)
| EvRead (b : Body)               (* a response body read *)
| EvClose (b : Body)              (* a response body closed *)
| EvStreamClose (r : bytesReader) (* the reader's backing stream closed *)
| EvReaddir (url : string)        (* s3util: listing of a File *)
| EvCreate (url : string).        (* s3util: an upload begun *)

Definition World : Type := list Event.

Definition is_network (e : Event) : bool :=
  match e with
  | EvRoundTrip _ | EvReaddir _ | EvCreate _ => true
  | _ => false
  end.

(** The network operations a world has seen. *)
Definition network (w : World) : list Event := List.filter is_network w.

(** A transport answers a request, possibly depending on all that went
    before. *)
Definition Responder : Type := World -> Request -> error + Reply.

(** ** The action monad: a function of the world *)

Definition IO (A : Type) : Type := World -> A * World.

Definition ret {A} (a : A) : IO A := fun w => (a, w).

Definition bind {A B} (m : IO A) (k : A -> IO B) : IO B :=
  fun w => let (a, w') := m w in k a w'.

Definition emit (e : Event) : IO unit := fun w => (tt, (w ++ [e])%list).

Declare Scope io_scope.
Delimit Scope io_scope with io.
Notation "x <- m ;; k" := (bind m (fun x => k))
  (at level 100, m at next level, right associativity) : io_scope.
Notation "' p <- m ;; k" := (bind m (fun p => k))
  (at level 100, p pattern, m at next level, right associativity) : io_scope.
Notation "m ;;; k" := (bind m (fun _ => k))
  (at level 100, right associativity) : io_scope.
Local Open Scope io_scope.

(** ** Files, URLs and configuration *)

(** [time.Time]: the zero value, or an instant. *)
Inductive Time : Type := TimeZero | TimeAt (unix : Z).

(** [os.FileMode]; [ModeDir] is its top bit. *)
Definition ModeDir : Z := 2 ^ 31.

Record fileInfo : Type := {
  fi_name : string;
  fi_size : Z;
  fi_mode : Z;
  fi_modTime : Time;
  fi_sys : option string
}.

Definition IsDir (f : fileInfo) : bool := negb (Z.land (fi_mode f) ModeDir =? 0).

(** [url.URL], the fields the package sets or reads. *)
Record URL : Type := {
  Scheme : string;
  Host : string;
  Path : string;
  RawQuery : string
}.

(** [http.RoundTripper], as the package meets it: a transport that puts
    the request on the wire, or the package's own [rangeTransport], which
    wraps an optional inner transport and carries the header value. *)
#[warnings="-register-all"]
Inductive Transport_t : Type :=
| Plain (r : Responder)
| rangeTransport (RoundTripper : option Transport_t) (rangeVal : string).

Record Client_t : Type := { Transport : option Transport_t }.

(** [s3util.Config]; keys and signing service are left out. *)
Record Config : Type := { Client : option Client_t }.

Record S3FS : Type := { bucket : URL; config : Config }.

(** The range-cached reader. [rc] is only ever assigned the
    [nopCloser{bytes.NewReader(b)}] that [open] returns, or nil. *)
Record explicitFetchFile : Type := {
  name : string;
  fs : S3FS;
  startByte : Z;
  endByte : Z;
  rc : option bytesReader;
  autofetch : bool
}.

(** ** The environment *)

(** The backend and the library functions whose text lies outside the
    package.  Theorems hold for every environment. *)
Class Env : Type := {
  (** [http.DefaultTransport]: the network. *)
  DefaultTransport : Responder;
  (** [base.ResolveReference(ref).String()]. *)
  ResolveReference : URL -> URL -> string;
  (** [url.Values.Encode] of the pairs set, in the order they were set. *)
  Encode : list (string * string) -> string;
  (** [http.NewRequest] fails on a target it cannot parse. *)
  NewRequest_err : string -> option error;
  (** [xml.Decoder.Decode] into [struct{ Contents []struct{ Key string } }]. *)
  xml_Decode : string -> error + list string;
  (** [time.Parse(http.TimeFormat, _)]. *)
  time_Parse : string -> error + Time;
  (** [s3util.NewFile] fails on a URL it cannot parse. *)
  NewFile_err : string -> option error;
  (** [File.Readdir(0)]: one listing of the prefix. *)
  Readdir : World -> string -> error + list fileInfo;
  (** [s3util.Create]: whether the upload could be begun. *)
  Create_err : World -> string -> option error
}.

Section Package.

Context {env : Env}.

(** *** Bodies *)

(** [ioutil.ReadAll] and [io.Copy] on a response body: the bytes read and
    the error, if any; a closed body yields nothing. *)
Definition ReadAll (b : Stream) : IO (string * option error) :=
  emit (EvRead (src b)) ;;;
  ret (if closed b then ("", Some errBodyClosed)
       else (content (src b), read_err (src b))).

Definition Body_Close (b : Stream) : IO (option error * Stream) :=
  emit (EvClose (src b)) ;;;
  ret (close_err (src b), {| src := src b; closed := true |}).

(** *** Transports *)

(** One request on the wire, answered by [r]. *)
Definition send (r : Responder) (req : Request) : IO (error + Response) :=
  fun w =>
    (match r w req with
     | inl e => inl e
     | inr a => inr {| StatusCode := reply_status a;
                       ContentLength := reply_length a;
                       last_modified := reply_last_modified a;
                       RespBody := {| src := reply_body a; closed := false |} |}
     end, (w ++ [EvRoundTrip req])%list).

(** [rangeTransport.RoundTrip]: the request is cloned, its [range] header
    set, and a partial-content answer is turned into a plain success. *)
Fixpoint RoundTrip (t : Transport_t) (req : Request) {struct t}
  : IO (error + Response) :=
  match t with
  | Plain r => send r req
  | rangeTransport inner rangeVal =>
      let req := {| Method := Method req; Target := Target req;
                    Range := Some rangeVal |} in
      r <- match inner with
           | None => send DefaultTransport req
           | Some transport => RoundTrip transport req
           end ;;
      ret (match r with
           | inr resp =>
               if StatusCode resp =? StatusPartialContent
               then inr {| StatusCode := StatusOK;
                           ContentLength := ContentLength resp;
                           last_modified := last_modified resp;
                           RespBody := RespBody resp |}
               else inr resp
           | inl e => inl e
           end)
  end.

(** [http.Client.Do]; a nil transport means the default one. One call
    is taken as one exchange with the transport: the redirects the
    client would follow on its own, and its wrapping of a transport
    error in a [*url.Error], are outside this model, so that an
    [EvRoundTrip] stands for one call of the client. *)
Definition Client_Do (c : Client_t) (req : Request) : IO (error + Response) :=
  match Transport c with
  | None => send DefaultTransport req
  | Some t => RoundTrip t req
  end.

Definition DefaultClient : Client_t := {| Transport := None |}.

Definition client_of (c : Config) : Client_t :=
  match Client c with
  | None => DefaultClient
  | Some cl => cl
  end.

(** [newRespError]: keeps the status, copies the body, closes it. *)
Definition newRespError (r : Response) : IO error :=
  '(b, _) <- ReadAll (RespBody r) ;;
  '(_, _) <- Body_Close (RespBody r) ;;
  ret (respError (StatusCode r) b).

(** *** The client library

    [s3util.Open] and [s3util.Delete] send one signed request through the
    configured client; a status other than 200 (for [Open]) or 204 (for
    [Delete]) is an error made from the response, whose body is read and
    closed; otherwise the response body is handed back unread. *)
Definition s3util_newRespError (r : Response) : IO error :=
  '(b, _) <- ReadAll (RespBody r) ;;
  '(_, _) <- Body_Close (RespBody r) ;;
  ret (s3utilError (StatusCode r) b).

Definition s3util_Open (url : string) (c : Config) : IO (error + Stream) :=
  r <- Client_Do (client_of c)
         {| Method := GET; Target := url; Range := None |} ;;
  match r with
  | inl e => ret (inl e)
  | inr resp =>
      if StatusCode resp =? StatusOK then ret (inr (RespBody resp))
      else e <- s3util_newRespError resp ;; ret (inl e)
  end.

Definition s3util_Delete (url : string) (c : Config)
  : IO (option Stream * option error) :=
  r <- Client_Do (client_of c)
         {| Method := DELETE; Target := url; Range := None |} ;;
  match r with
  | inl e => ret (None, Some e)
  | inr resp =>
      if StatusCode resp =? StatusNoContent then ret (Some (RespBody resp), None)
      else e <- s3util_newRespError resp ;; ret (None, Some e)
  end.

(** *** The adapter *)

Definition S3FS_url (fs : S3FS) (path : string) : string :=
  let path := pathpkg_Join (Path (bucket fs)) path in
  ResolveReference (bucket fs)
    {| Scheme := ""; Host := ""; Path := path; RawQuery := "" |}.

(** [fs.open]: with a range header, the request goes through a copy of
    the configuration whose client carries a [rangeTransport] around the
    configured transport. The whole body is read into memory. When
    reading fails the function returns before the deferred close is
    registered. *)
Definition S3FS_open (fs : S3FS) (name : string) (rangeHeader : string)
  : IO (error + bytesReader) :=
  let cfg :=
    match rangeHeader with
    | EmptyString => config fs
    | _ =>
        let existingTransport :=
          match Client (config fs) with
          | Some cl => Transport cl
          | None => None
          end in
        {| Client := Some {| Transport :=
             Some (rangeTransport existingTransport rangeHeader) |} |}
    end in
  r <- s3util_Open (S3FS_url fs name) cfg ;;
  match r with
  | inl err => ret (inl (PathError "open" (S3FS_url fs name) err))
  | inr rdr =>
      '(b, err) <- ReadAll rdr ;;
      match err with
      | Some e => ret (inl e)
      | None =>
          '(_, _) <- Body_Close rdr ;;
          ret (inr {| s := b; i := 0 |})
      end
  end.

Definition Open (fs : S3FS) (name : string) : IO (error + bytesReader) :=
  S3FS_open fs name "".

(** The reader comes back as a pointer, [None] standing for nil. *)
Definition OpenFetcher (fs : S3FS) (name : string)
  : IO (option explicitFetchFile * option error) :=
  ret (Some {| name := name; fs := fs; startByte := 0; endByte := 0;
               rc := None; autofetch := true |}, None).

Definition ReadDir (fs : S3FS) (path : string) : IO (error + list fileInfo) :=
  match NewFile_err (S3FS_url fs path) with
  | Some err => ret (inl (PathError "readdir" (S3FS_url fs path) err))
  | None =>
      fun w =>
        (match Readdir w (S3FS_url fs path) with
         | inl err => inl err
         | inr fis =>
             inr (List.map
                    (fun fi => {| fi_name := pathpkg_Base (fi_name fi);
                                  fi_size := fi_size fi;
                                  fi_mode := fi_mode fi;
                                  fi_modTime := fi_modTime fi;
                                  fi_sys := fi_sys fi |}) fis)
         end, (w ++ [EvReaddir (S3FS_url fs path)])%list)
  end.

Definition lstat (fs : S3FS) (name : string) : IO (error + fileInfo) :=
  let name := TrimPrefix (filepath_Clean name) "/" in
  if String.eqb name "." then
    ret (inr {| fi_name := "."; fi_size := 0; fi_mode := ModeDir;
                fi_modTime := TimeZero; fi_sys := None |})
  else
    let client := client_of (config fs) in
    let q := [("prefix", name ++ "/"); ("max-keys", "1")] in
    let u := ResolveReference (bucket fs)
               {| Scheme := ""; Host := ""; Path := ""; RawQuery := Encode q |} in
    match NewRequest_err u with
    | Some err => ret (inl err)
    | None =>
    r <- Client_Do client {| Method := GET; Target := u; Range := None |} ;;
    match r with
    | inl err => ret (inl err)
    | inr resp =>
    if negb (StatusCode resp =? 200) then
      '(_, body) <- Body_Close (RespBody resp) ;;
      e <- newRespError {| StatusCode := StatusCode resp;
                           ContentLength := ContentLength resp;
                           last_modified := last_modified resp;
                           RespBody := body |} ;;
      ret (inl e)
    else
    '(data, rerr) <- ReadAll (RespBody resp) ;;
    match (match rerr with
           | Some e => inl e
           | None => xml_Decode data
           end) with
    | inl err => ret (inl err)
    | inr Contents =>
    '(cerr, _) <- Body_Close (RespBody resp) ;;
    match cerr with
    | Some err => ret (inl err)
    | None =>
    (* If Contents is non-empty, then this is a dir. *)
    if Nat.eqb (List.length Contents) 1 then
      ret (inr {| fi_name := name; fi_size := 0; fi_mode := ModeDir;
                  fi_modTime := TimeZero; fi_sys := None |})
    else
    (* Otherwise, see if a key exists here. *)
    match NewRequest_err (S3FS_url fs name) with
    | Some err => ret (inl err)
    | None =>
    r <- Client_Do client
           {| Method := HEAD; Target := S3FS_url fs name; Range := None |} ;;
    match r with
    | inl err => ret (inl err)
    | inr resp =>
        if StatusCode resp =? StatusNotFound then
          '(_, _) <- Body_Close (RespBody resp) ;;
          ret (inl ErrNotExist)
        else if negb (StatusCode resp =? 200) then
          e <- newRespError resp ;;
          '(_, _) <- Body_Close {| src := src (RespBody resp); closed := true |} ;;
          ret (inl e)
        else
          let t := match time_Parse (last_modified resp) with
                   | inr t => t
                   | inl _ => TimeZero
                   end in
          '(_, _) <- Body_Close (RespBody resp) ;;
          ret (inr {| fi_name := name; fi_size := ContentLength resp;
                      fi_mode := 0; fi_modTime := t; fi_sys := None |})
    end end end end end end.

Definition Lstat (fs : S3FS) (name : string) : IO (error + fileInfo) :=
  r <- lstat fs name ;;
  match r with
  | inl err => ret (inl (PathError "lstat" (S3FS_url fs name) err))
  | inr fi => ret (inr fi)
  end.

Definition Stat (fs : S3FS) (name : string) : IO (error + fileInfo) :=
  Lstat fs name.

(** [Create]: the write stream is bound to the URL it will upload to. *)
Definition Create (fs : S3FS) (path : string) : IO (error + string) :=
  fun w =>
    (match Create_err w (S3FS_url fs path) with
     | Some err => inl (PathError "create" (S3FS_url fs path) err)
     | None => inr (S3FS_url fs path)
     end, (w ++ [EvCreate (S3FS_url fs path)])%list).

Definition Mkdir (fs : S3FS) (name : string) : IO (option error) := ret None.

Definition MkdirAll (fs : S3FS) (name : string) : IO (option error) := ret None.

(** [Remove]: the deferred function closes the body the delete handed
    back, and its error is returned when the delete itself gave none. *)
Definition Remove (fs : S3FS) (name : string) : IO (option error) :=
  '(rdr, err) <- s3util_Delete (S3FS_url fs name) (config fs) ;;
  match rdr with
  | Some body =>
      '(err2, _) <- Body_Close body ;;
      ret (match err with None => err2 | Some _ => err end)
  | None => ret err
  end.

(** *** [bytes.Reader] *)

(** [Read] into a buffer of [n] bytes: the bytes copied and the error. *)
Definition bytesReader_Read (r : bytesReader) (n : nat)
  : (string * option error) * bytesReader :=
  if len (s r) <=? i r then (("", Some EOF), r)
  else
    let data := substring (Z.to_nat (i r)) n (s r) in
    ((data, None), {| s := s r; i := Int64.add (i r) (len data) |}).

Definition bytesReader_Seek (r : bytesReader) (offset whence : Z)
  : (Z * option error) * bytesReader :=
  match (if whence =? 0 then Some offset
         else if whence =? 1 then Some (Int64.add (i r) offset)
         else if whence =? 2 then Some (Int64.add (len (s r)) offset)
         else None) with
  | None => ((0, Some errWhence), r)
  | Some abs =>
      if abs <? 0 then ((0, Some errNegative), r)
      else ((abs, None), {| s := s r; i := abs |})
  end.

(** *** The range-cached reader *)

Definition set_rc (f : explicitFetchFile) (r : option bytesReader)
  : explicitFetchFile :=
  {| name := name f; fs := fs f; startByte := startByte f;
     endByte := endByte f; rc := r; autofetch := autofetch f |}.

Definition isFetched (f : explicitFetchFile) (start end_ : Z) : bool :=
  match rc f with
  | None => false
  | Some _ =>
      (start <=? end_) && (startByte f <=? start) && (end_ <=? endByte f)
  end.

(** [nopCloser.Close] returns nil. *)
Definition Close (f : explicitFetchFile) : IO (option error * explicitFetchFile) :=
  match rc f with
  | Some r =>
      emit (EvStreamClose r) ;;;
      ret (None, {| name := name f; fs := fs f; startByte := 0; endByte := 0;
                    rc := None; autofetch := autofetch f |})
  | None => ret (None, f)
  end.

Definition range_header (start end_ : Z) : string :=
  "bytes=" ++ fmt_d start ++ "-" ++ fmt_d end_.

Definition Fetch (f : explicitFetchFile) (start end_ : Z)
  : IO (option error * explicitFetchFile) :=
  if isFetched f start end_ then
    (* Already prefetched. *)
    ret (None, f)
  else
    (* Close existing open reader (if any). *)
    '(err, f) <- Close f ;;
    match err with
    | Some e => ret (Some e, f)
    | None =>
        let rng := range_header start end_ in
        r <- S3FS_open (fs f) (name f) rng ;;
        match r with
        | inr rd =>
            ret (None, {| name := name f; fs := fs f; startByte := start;
                          endByte := end_; rc := Some rd;
                          autofetch := autofetch f |})
        | inl e => ret (Some e, set_rc f None)
        end
    end.

Definition Seek (f : explicitFetchFile) (offset whence : Z)
  : (Z * option error) * explicitFetchFile :=
  match rc f with
  | None => ((0, Some errMustFetch), f)
  | Some r =>
      if whence =? 2 then ((0, Some errRelOfs), f)
      else
        let offset := if whence =? 0 then Int64.sub offset (startByte f)
                      else offset in
        let '((n, err), r') := bytesReader_Seek r offset whence in
        ((Int64.add n (startByte f), err), set_rc f (Some r'))
  end.

(** The outcome of [Read]: the bytes put into the buffer and the error,
    or the panic of a call through a nil [rc]. *)
Inductive read_result : Type :=
| Returned (data : string) (err : option error)
| Panicked.

Definition rc_Read (f : explicitFetchFile) (n : nat)
  : read_result * explicitFetchFile :=
  match rc f with
  | Some r =>
      let '((data, err), r') := bytesReader_Read r n in
      (Returned data err, set_rc f (Some r'))
  | None => (Panicked, f)
  end.

(** [Read] into a buffer of [n] bytes. *)
Definition Read (f : explicitFetchFile) (n : nat)
  : IO (read_result * explicitFetchFile) :=
  let '((ofs, err), f) := Seek f 0 1 in  (* get current offset *)
  match err with
  | Some e => ret (Returned "" (Some e), f)
  | None =>
      let start := ofs in
      let end_ := Int64.add ofs (Z.of_nat n) in
      if negb (isFetched f start end_) then
        if negb (autofetch f) then
          ret (Returned "" (Some (errNotFetched start end_ (startByte f)
                                    (endByte f) ofs)), f)
        else
          let x := 4 in  (* overfetch factor *)
          let fetchEnd := Int64.add end_ (Int64.mul (Int64.sub end_ start) x) in
          '(err, f) <- Fetch f start fetchEnd ;;
          match err with
          | Some e => ret (Returned "" (Some e), f)
          | None => ret (rc_Read f n)
          end
      else ret (rc_Read f n)
  end.

(** *** Notions used to state the properties *)

(** The request a transport finally puts on the wire. *)
Fixpoint wire_t (t : Transport_t) (req : Request) {struct t} : Request :=
  match t with
  | Plain _ => req
  | rangeTransport inner rangeVal =>
      let req := {| Method := Method req; Target := Target req;
                    Range := Some rangeVal |} in
      match inner with
      | None => req
      | Some transport => wire_t transport req
      end
  end.

Definition on_wire (t : option Transport_t) (req : Request) : Request :=
  match t with
  | None => req
  | Some t => wire_t t req
  end.

(** The transport configured for a file system, nil included. *)
Definition configured (fs : S3FS) : option Transport_t :=
  match Client (config fs) with
  | Some cl => Transport cl
  | None => None
  end.

(** The request [Fetch] makes for a span: a GET of the object with the
    range header, as the configured transport sends it. *)
Definition fetch_request (f : explicitFetchFile) (start end_ : Z) : Request :=
  on_wire (configured (fs f))
    {| Method := GET; Target := S3FS_url (fs f) (name f);
       Range := Some (range_header start end_) |}.

(** The first half of [lstat] after the root test: the listing of at most
    one key under [name/], checked, decoded and closed. *)
Definition list_target (fs : S3FS) (name : string) : string :=
  ResolveReference (bucket fs)
    {| Scheme := ""; Host := ""; Path := "";
       RawQuery := Encode [("prefix", name ++ "/"); ("max-keys", "1")] |}.

Definition ListByPrefix (fs : S3FS) (name : string) : IO (error + list string) :=
  match NewRequest_err (list_target fs name) with
  | Some err => ret (inl err)
  | None =>
  r <- Client_Do (client_of (config fs))
         {| Method := GET; Target := list_target fs name; Range := None |} ;;
  match r with
  | inl err => ret (inl err)
  | inr resp =>
  if negb (StatusCode resp =? 200) then
    '(_, body) <- Body_Close (RespBody resp) ;;
    e <- newRespError {| StatusCode := StatusCode resp;
                         ContentLength := ContentLength resp;
                         last_modified := last_modified resp;
                         RespBody := body |} ;;
    ret (inl e)
  else
  '(data, rerr) <- ReadAll (RespBody resp) ;;
  match (match rerr with
         | Some e => inl e
         | None => xml_Decode data
         end) with
  | inl err => ret (inl err)
  | inr Contents =>
  '(cerr, _) <- Body_Close (RespBody resp) ;;
  match cerr with
  | Some err => ret (inl err)
  | None => ret (inr Contents)
  end end end end.

(** The HEAD request of the second half of [lstat]. *)
Definition probe_request (fs : S3FS) (name : string) : Request :=
  {| Method := HEAD; Target := S3FS_url fs name; Range := None |}.

(** The second half of [lstat]: the HEAD of the key itself. *)
Definition probe (fs : S3FS) (name : string) : IO (error + fileInfo) :=
  match NewRequest_err (S3FS_url fs name) with
  | Some err => ret (inl err)
  | None =>
  r <- Client_Do (client_of (config fs)) (probe_request fs name) ;;
  match r with
  | inl err => ret (inl err)
  | inr resp =>
      if StatusCode resp =? StatusNotFound then
        '(_, _) <- Body_Close (RespBody resp) ;;
        ret (inl ErrNotExist)
      else if negb (StatusCode resp =? 200) then
        e <- newRespError resp ;;
        '(_, _) <- Body_Close {| src := src (RespBody resp); closed := true |} ;;
        ret (inl e)
      else
        let t := match time_Parse (last_modified resp) with
                 | inr t => t
                 | inl _ => TimeZero
                 end in
        '(_, _) <- Body_Close (RespBody resp) ;;
        ret (inr {| fi_name := name; fi_size := ContentLength resp;
                    fi_mode := 0; fi_modTime := t; fi_sys := None |})
  end end.

(** The path [lstat] works with. *)
Definition normalize (name : string) : string :=
  TrimPrefix (filepath_Clean name) "/".

Definition synthetic_dir (name : string) : fileInfo :=
  {| fi_name := name; fi_size := 0; fi_mode := ModeDir;
     fi_modTime := TimeZero; fi_sys := None |}.

(** A reader without a backing stream has the empty window. *)
Definition window_ok (f : explicitFetchFile) : Prop :=
  rc f = None -> startByte f = 0 /\ endByte f = 0.

(** What closing the reader's stream, if it has one, adds to the log. *)
Definition released (f : explicitFetchFile) : World :=
  match rc f with
  | Some r => [EvStreamClose r]
  | None => []
  end.

(** A run of reads, one buffer length each. *)
Fixpoint Reads (f : explicitFetchFile) (ns : list nat)
  : IO (list read_result * explicitFetchFile) :=
  match ns with
  | [] => ret ([], f)
  | n :: ns' =>
      '(r, f) <- Read f n ;;
      '(rs, f) <- Reads f ns' ;;
      ret (r :: rs, f)
  end.

Definition failed (r : read_result) : Prop :=
  exists e, r = Returned "" (Some e).

Definition is_PathError (e : error) : bool :=
  match e with
  | PathError _ _ _ => true
  | _ => false
  end.

(** *** Notions used to state further properties *)

(** A response as a transport hands it over: the body not yet closed. *)
Definition response_of (a : Reply) : Response :=
  {| StatusCode := reply_status a;
     ContentLength := reply_length a;
     last_modified := reply_last_modified a;
     RespBody := {| src := reply_body a; closed := false |} |}.

(** The configured transport is the default one or one of the user's,
    not a [rangeTransport] (a type the package does not export). *)
Definition plain_config (fs : S3FS) : Prop :=
  match configured fs with
  | Some (rangeTransport _ _) => False
  | _ => True
  end.

(** What answers the requests of a file system with a plain
    configuration. *)
Definition base_responder (fs : S3FS) : Responder :=
  match configured fs with
  | Some (Plain r) => r
  | _ => DefaultTransport
  end.

(** Whether a name holds a slash. *)
Definition has_sep (t : string) : bool :=
  List.existsb is_sep (list_ascii_of_string t).

(** The calls a user can make on a reader, and runs of them. *)
Inductive Op : Type :=
| OpRead (n : nat)
| OpSeek (offset whence : Z)
| OpFetch (start end_ : Z)
| OpClose.

Definition step (f : explicitFetchFile) (o : Op) : IO explicitFetchFile :=
  match o with
  | OpRead n => '(_, f') <- Read f n ;; ret f'
  | OpSeek offset whence => ret (snd (Seek f offset whence))
  | OpFetch start end_ => '(_, f') <- Fetch f start end_ ;; ret f'
  | OpClose => '(_, f') <- Close f ;; ret f'
  end.

Fixpoint run (f : explicitFetchFile) (ops : list Op) : IO explicitFetchFile :=
  match ops with
  | [] => ret f
  | o :: ops' => f' <- step f o ;; run f' ops'
  end.

(** Same object, same file system, same autofetch flag, and the empty
    window whenever there is no stream. *)
Definition same_reader (f g : explicitFetchFile) : Prop :=
  name g = name f /\ fs g = fs f /\ autofetch g = autofetch f /\ window_ok g.

End Package.

(** ** A simulated bucket

    A small in-memory server, used to run the package on concrete inputs.
    The bucket lives at [https://s3.test/bucket]; a store is a list of keys
    with their contents. The server honours [bytes=first-last] ranges with
    both ends included, as HTTP defines them, and [max-keys]. *)
Module Sim.

Definition nl : ascii := ascii_of_nat 10.

Fixpoint split_on (c : ascii) (acc : string) (t : string) : list string :=
  match t with
  | EmptyString => [acc]
  | String d t' =>
      if Ascii.eqb c d then acc :: split_on c "" t'
      else split_on c (acc ++ String d "") t'
  end.

Definition parse_nat (t : string) : option nat :=
  match t with
  | EmptyString => None
  | _ => option_map Nat.of_uint (NilZero.uint_of_string t)
  end.

(** [bytes=first-last], both decimal and not negative. *)
Definition parse_range (h : string) : option (nat * nat) :=
  if String.prefix "bytes=" h then
    match split_on "-"%char "" (substring 6 (String.length h - 6) h) with
    | [a; b] =>
        match parse_nat a, parse_nat b with
        | Some first, Some last => Some (first, last)
        | _, _ => None
        end
    | _ => None
    end
  else None.

Definition Store : Type := list (string * string).

Fixpoint lookup (k : string) (st : Store) : option string :=
  match st with
  | [] => None
  | (k', v) :: st' => if String.eqb k k' then Some v else lookup k st'
  end.

Definition root : string := "https://s3.test/bucket".
Definition list_prefix : string := "https://s3.test/bucket?prefix=".
Definition a_date : string := "Mon, 02 Jan 2006 15:04:05 GMT".

Definition body_of (t : string) : Body :=
  {| content := t; read_err := None; close_err := None |}.

Definition reply (status : Z) (t : string) : Reply :=
  {| reply_status := status; reply_length := len t;
     reply_last_modified := a_date; reply_body := body_of t |}.

Definition key_of (target : string) : string :=
  TrimPrefix target (root ++ "/").

Definition listing (st : Store) (target : string) : string :=
  let q := TrimPrefix target list_prefix in
  let pre := List.hd "" (split_on "&"%char "" q) in
  let keys := List.filter (String.prefix pre) (List.map fst st) in
  String.concat "" (List.map (fun k => k ++ String nl "") (List.firstn 1 keys)).

(** [note] is the body the server attaches to its answer to a delete. *)
Definition serve (st : Store) (note : string) : Responder :=
  fun _ req =>
    let t := Target req in
    match Method req with
    | GET =>
        if String.prefix list_prefix t then inr (reply 200 (listing st t))
        else
          match lookup (key_of t) st with
          | None => inr (reply 404 "NoSuchKey")
          | Some v =>
              match Range req with
              | None => inr (reply 200 v)
              | Some h =>
                  match parse_range h with
                  | None => inr (reply 200 v)
                  | Some (first, last) =>
                      if Nat.leb (String.length v) first
                      then inr (reply 416 "InvalidRange")
                      else inr (reply 206 (substring first (last - first + 1) v))
                  end
              end
          end
    | HEAD =>
        match lookup (key_of t) st with
        | None => inr (reply 404 "")
        | Some v =>
            inr {| reply_status := 200; reply_length := len v;
                   reply_last_modified := a_date; reply_body := body_of "" |}
        end
    | DELETE => inr (reply 204 note)
    end.

Definition resolve (base ref : URL) : string :=
  Scheme base ++ "://" ++ Host base
  ++ (match Path ref with EmptyString => Path base | _ => Path ref end)
  ++ (match RawQuery ref with EmptyString => "" | q => "?" ++ q end).

Definition encode (q : list (string * string)) : string :=
  String.concat "&" (List.map (fun kv => fst kv ++ "=" ++ snd kv) q).

Definition decode (t : string) : error + list string :=
  inr (List.filter (fun k => negb (String.eqb k "")) (split_on nl "" t)).

Definition parse_time (t : string) : error + Time :=
  if String.eqb t a_date then inr (TimeAt 1136214245)
  else inl (Foreign "parsing time").

Definition env (st : Store) (note : string) : Env :=
  {| DefaultTransport := serve st note;
     ResolveReference := resolve;
     Encode := encode;
     NewRequest_err := fun _ => None;
     xml_Decode := decode;
     time_Parse := parse_time;
     NewFile_err := fun _ => None;
     Readdir := fun _ _ => inr [];
     Create_err := fun _ _ => None |}.

Definition the_bucket : URL :=
  {| Scheme := "https"; Host := "s3.test"; Path := "/bucket"; RawQuery := "" |}.

Definition the_fs : S3FS :=
  {| bucket := the_bucket; config := {| Client := None |} |}.

(** One object, [hello], at [a/b.txt]. *)
Definition store1 : Store := [("a/b.txt", "hello")].

(** An object at [p] and another under the prefix [p/]. *)
Definition store2 : Store := [("p", "file"); ("p/x", "inner")].

Definition fresh (nm : string) : explicitFetchFile :=
  {| name := nm; fs := the_fs; startByte := 0; endByte := 0;
     rc := None; autofetch := true |}.

(** The reader of [a/b.txt] as [Fetch(0, 2)] leaves it on [store1]. *)
Definition fetched_0_2 : explicitFetchFile :=
  {| name := "a/b.txt"; fs := the_fs; startByte := 0; endByte := 2;
     rc := Some {| s := "hel"; i := 0 |}; autofetch := true |}.

(** A file system whose transport refuses every connection. *)
Definition refuse : Responder := fun _ _ => inl (Foreign "connection refused").

Definition offline_fs : S3FS :=
  {| bucket := the_bucket;
     config := {| Client := Some {| Transport := Some (Plain refuse) |} |} |}.

Definition E1 : Env := env store1 "".
Definition E2 : Env := env store2 "".

(** The bucket of [store1] behind a server that answers a delete with
    204 and a body of four bytes. *)
Definition E_note : Env := env store1 "gone".

(** The reader of [a/b.txt] with the window [0, 25) that an autofetch
    sets, and all five bytes of the object read. *)
Definition read_to_end : explicitFetchFile :=
  {| name := "a/b.txt"; fs := the_fs; startByte := 0; endByte := 25;
     rc := Some {| s := "hello"; i := 5 |}; autofetch := true |}.

(** [fetched_0_2] with autofetch off. *)
Definition manual_0_2 : explicitFetchFile :=
  {| name := "a/b.txt"; fs := the_fs; startByte := 0; endByte := 2;
     rc := Some {| s := "hel"; i := 0 |}; autofetch := false |}.

(** A file system whose transport answers 403 to everything. *)
Definition forbid : Responder := fun _ _ => inr (reply 403 "AccessDenied").

Definition forbidden_fs : S3FS :=
  {| bucket := the_bucket;
     config := {| Client := Some {| Transport := Some (Plain forbid) |} |} |}.

(** An environment whose listing of a prefix names two keys in full. *)
Definition listed : list fileInfo :=
  [ {| fi_name := "a/b.txt"; fi_size := 5; fi_mode := 0;
       fi_modTime := TimeAt 1136214245; fi_sys := None |};
    {| fi_name := "a/sub/"; fi_size := 0; fi_mode := 0;
       fi_modTime := TimeZero; fi_sys := None |} ].

Definition E_dir : Env :=
  {| DefaultTransport := serve store1 "";
     ResolveReference := resolve;
     Encode := encode;
     NewRequest_err := fun _ => None;
     xml_Decode := decode;
     time_Parse := parse_time;
     NewFile_err := fun _ => None;
     Readdir := fun _ _ => inr listed;
     Create_err := fun _ _ => None |}.

(** The log [Fetch(0, 2)] leaves on [store1], starting from nothing. *)
Definition after_fetch_0_2 : World :=
  [EvRoundTrip {| Method := GET; Target := "https://s3.test/bucket/a/b.txt";
                  Range := Some "bytes=0-2" |};
   EvRead (body_of "hel"); EvClose (body_of "hel")].

(** A reader that holds bytes of an object the bucket no longer has. *)
Definition stale : explicitFetchFile :=
  {| name := "nope"; fs := the_fs; startByte := 0; endByte := 2;
     rc := Some {| s := "hel"; i := 0 |}; autofetch := true |}.

(** A server that pays no heed to [max-keys]: its listing names every
    key under the prefix. Everything else it answers as [serve] does. *)
Definition listing_all (st : Store) (target : string) : string :=
  let q := TrimPrefix target list_prefix in
  let pre := List.hd "" (split_on "&"%char "" q) in
  let keys := List.filter (String.prefix pre) (List.map fst st) in
  String.concat "" (List.map (fun k => k ++ String nl "") keys).

Definition serve_all (st : Store) : Responder :=
  fun w req =>
    match Method req with
    | GET =>
        if String.prefix list_prefix (Target req)
        then inr (reply 200 (listing_all st (Target req)))
        else serve st "" w req
    | _ => serve st "" w req
    end.

(** Two objects under [p/] and none at [p]. *)
Definition store3 : Store := [("p/x", "one"); ("p/y", "two")].

Definition E_many : Env :=
  {| DefaultTransport := serve_all store3;
     ResolveReference := resolve;
     Encode := encode;
     NewRequest_err := fun _ => None;
     xml_Decode := decode;
     time_Parse := parse_time;
     NewFile_err := fun _ => None;
     Readdir := fun _ _ => inr [];
     Create_err := fun _ _ => None |}.

End Sim.

(** * Properties *)

(** ** Arithmetic and lists *)

Lemma wrap_in_range (x : Z) : Int64.in_range x -> Int64.wrap x = x.
Proof.
  unfold Int64.in_range, Int64.wrap, Int64.min_signed, Int64.max_signed,
    Int64.modulus; intros H.
  rewrite Z.mod_small; lia.
Qed.

Lemma wrap_range (x : Z) : Int64.in_range (Int64.wrap x).
Proof.
  unfold Int64.in_range, Int64.wrap, Int64.min_signed, Int64.max_signed,
    Int64.modulus.
  pose proof (Z.mod_pos_bound (x + 2 ^ 63) (2 ^ 64) ltac:(lia)); lia.
Qed.

Lemma wrap_add_wrap_r (a b : Z) :
  Int64.wrap (a + Int64.wrap b) = Int64.wrap (a + b).
Proof.
  unfold Int64.wrap, Int64.modulus. f_equal.
  replace (a + ((b + 2 ^ 63) mod 2 ^ 64 - 2 ^ 63) + 2 ^ 63)
    with (a + (b + 2 ^ 63) mod 2 ^ 64) by ring.
  rewrite Z.add_mod_idemp_r by lia. f_equal. ring.
Qed.

Lemma network_app (w1 w2 : World) :
  network (w1 ++ w2)%list = (network w1 ++ network w2)%list.
Proof. apply List.filter_app. Qed.

Example Clean_examples :
  List.map filepath_Clean
    [""; "."; "/"; "a//b/"; "a/./b/../c"; "../a"; "/../a"; "a/.."; "./";
     "a/b/../../.."]
  = ["."; "."; "/"; "a/b"; "a/c"; "../a"; "/a"; "."; "."; ".."].
Proof. reflexivity. Qed.

Example fmt_d_examples :
  List.map fmt_d [0; 7; 42; -3] = ["0"; "7"; "42"; "-3"].
Proof. reflexivity. Qed.

Example Base_examples :
  List.map pathpkg_Base [""; "a/b.txt"; "a/b/"; "///"; "x"]
  = ["."; "b.txt"; "b"; "/"; "x"].
Proof. reflexivity. Qed.

Section Facts.

Context {env : Env}.

Ltac io := unfold bind, ret, emit in *; cbn [fst snd] in *.
Ltac crunch := cbn -[on_wire S3FS_url configured Z.eqb List.app network].

(** ** Transports: one call, one request on the wire *)

Lemma send_spec (r : Responder) (req : Request) (w : World) :
  exists res, send r req w = (res, (w ++ [EvRoundTrip req])%list)
    /\ forall resp, res = inr resp -> closed (RespBody resp) = false.
Proof.
  unfold send. destruct (r w req) as [e | a]; eexists; split; try reflexivity.
  - discriminate.
  - intros resp H; injection H as <-; reflexivity.
Qed.

Lemma RoundTrip_spec :
  forall (t : Transport_t) (req : Request) (w : World),
  exists res, RoundTrip t req w = (res, (w ++ [EvRoundTrip (wire_t t req)])%list)
    /\ forall resp, res = inr resp -> closed (RespBody resp) = false.
Proof.
  fix IH 1. intros [r | inner rv] req w.
  - cbn [RoundTrip wire_t]. apply send_spec.
  - cbn [RoundTrip wire_t].
    set (req' := {| Method := Method req; Target := Target req;
                    Range := Some rv |}).
    assert (H : exists res,
               match inner with
               | Some transport => RoundTrip transport req'
               | None => send DefaultTransport req'
               end w
               = (res, (w ++ [EvRoundTrip match inner with
                                         | Some transport => wire_t transport req'
                                         | None => req'
                                         end])%list)
               /\ forall resp, res = inr resp -> closed (RespBody resp) = false).
    { destruct inner as [t' |]; [apply IH | apply send_spec]. }
    destruct H as (res & Hrun & Hopen).
    io. rewrite Hrun.
    destruct res as [e | resp]; eexists; split; try reflexivity.
    + discriminate.
    + intros resp' H. specialize (Hopen resp eq_refl).
      destruct (StatusCode resp =? StatusPartialContent);
        injection H as <-; exact Hopen.
Qed.

Lemma Client_Do_spec (c : Client_t) (req : Request) (w : World) :
  exists res,
    Client_Do c req w = (res, (w ++ [EvRoundTrip (on_wire (Transport c) req)])%list)
    /\ forall resp, res = inr resp -> closed (RespBody resp) = false.
Proof.
  unfold Client_Do, on_wire. destruct (Transport c) as [t |].
  - apply RoundTrip_spec.
  - apply send_spec.
Qed.

Lemma wire_t_target (t : Transport_t) :
  forall req, Method (wire_t t req) = Method req
              /\ Target (wire_t t req) = Target req.
Proof.
  revert t. fix IH 1. intros [r | inner rv] req; cbn [wire_t].
  - split; reflexivity.
  - destruct inner as [t' |]; [| split; reflexivity].
    destruct (IH t' {| Method := Method req; Target := Target req;
                       Range := Some rv |}) as [H1 H2].
    split; [rewrite H1 | rewrite H2]; reflexivity.
Qed.

Lemma on_wire_target (t : option Transport_t) (req : Request) :
  Method (on_wire t req) = Method req /\ Target (on_wire t req) = Target req.
Proof.
  destruct t as [t |]; [apply wire_t_target | split; reflexivity].
Qed.

(** With the default transport, or one that puts requests on the wire
    itself, the request goes out as it was built. *)
Lemma on_wire_plain (t : option Transport_t) (req : Request) :
  match t with Some (rangeTransport _ _) => False | _ => True end ->
  on_wire t req = req.
Proof.
  destruct t as [[r | inner rv] |]; cbn; intros H; try reflexivity.
  destruct H.
Qed.

(** ** Opening an object with a range header *)

Lemma S3FS_open_spec (fs : S3FS) (name rng : string) (w : World) :
  rng <> "" ->
  exists res tl,
    S3FS_open fs name rng w
    = (res, (w ++ EvRoundTrip
                    (on_wire (configured fs)
                       {| Method := GET; Target := S3FS_url fs name;
                          Range := Some rng |}) :: tl)%list)
    /\ network tl = []
    /\ forall rd, res = inr rd -> i rd = 0.
Proof.
  intros Hrng. destruct rng as [| c rng']; [congruence |].
  unfold S3FS_open, s3util_Open, client_of. cbn [Client].
  set (cl := {| Transport := Some (rangeTransport _ _) |}).
  set (req0 := {| Method := GET; Target := S3FS_url fs name; Range := None |}).
  destruct (Client_Do_spec cl req0 w) as (res & Hdo & Hopen).
  assert (Hw : on_wire (Transport cl) req0
               = on_wire (configured fs)
                   {| Method := GET; Target := S3FS_url fs name;
                      Range := Some (String c rng') |}).
  { unfold cl, configured, on_wire; cbn.
    destruct (Client (config fs)) as [c0 |]; [| reflexivity].
    destruct (Transport c0); reflexivity. }
  rewrite Hw in Hdo. io. rewrite Hdo.
  destruct res as [e | resp].
  - do 2 eexists. split; [reflexivity |]. split; [reflexivity | discriminate].
  - specialize (Hopen resp eq_refl).
    destruct resp as [code clen lm [b isclosed]]. cbn in Hopen. subst isclosed.
    unfold s3util_newRespError, ReadAll, Body_Close. io.
    crunch.
    destruct (code =? StatusOK); crunch.
    + destruct (read_err b) as [e |].
      * exists (inl e), [EvRead b].
        rewrite <- List.app_assoc. split; [reflexivity |].
        split; [reflexivity | discriminate].
      * exists (inr {| s := content b; i := 0 |}), [EvRead b; EvClose b].
        rewrite <- !List.app_assoc. split; [reflexivity |].
        split; [reflexivity |]. intros rd H; injection H as <-; reflexivity.
    + eexists _, [EvRead b; EvClose b].
      rewrite <- !List.app_assoc. split; [reflexivity |].
      split; [reflexivity | discriminate].
Qed.

Lemma range_header_nonempty (start end_ : Z) : range_header start end_ <> "".
Proof. unfold range_header; cbn; discriminate. Qed.

(** ** Fetch *)

Lemma isFetched_true_iff (f : explicitFetchFile) (start end_ : Z) :
  isFetched f start end_ = true
  <-> rc f <> None /\ start <= end_ /\ startByte f <= start /\ end_ <= endByte f.
Proof.
  unfold isFetched. destruct (rc f) as [r |].
  - rewrite !Bool.andb_true_iff, !Z.leb_le. split.
    + intros [[H1 H2] H3]. repeat split; auto. discriminate.
    + intros (_ & H1 & H2 & H3). auto.
  - split; [discriminate | intros [H _]; congruence].
Qed.

Lemma Fetch_noop (f : explicitFetchFile) (start end_ : Z) (w : World) :
  isFetched f start end_ = true -> Fetch f start end_ w = ((None, f), w).
Proof. intros H; unfold Fetch; rewrite H; reflexivity. Qed.

Lemma Fetch_spec (f : explicitFetchFile) (start end_ : Z) (w : World) :
  isFetched f start end_ = false ->
  exists err f' tl,
    Fetch f start end_ w
    = ((err, f'),
       (w ++ released f ++ EvRoundTrip (fetch_request f start end_) :: tl)%list)
    /\ network tl = []
    /\ name f' = name f /\ fs f' = fs f /\ autofetch f' = autofetch f
    /\ match err with
       | None =>
           exists rd, rc f' = Some rd /\ i rd = 0
                      /\ startByte f' = start /\ endByte f' = end_
       | Some _ =>
           rc f' = None
           /\ startByte f' = match rc f with Some _ => 0 | None => startByte f end
           /\ endByte f' = match rc f with Some _ => 0 | None => endByte f end
       end.
Proof.
  intros H. unfold Fetch, Close, released, fetch_request. rewrite H.
  destruct (rc f) as [r |] eqn:Hrc; io; cbn [name fs].
  - destruct (S3FS_open_spec (fs f) (name f) (range_header start end_)
                (w ++ [EvStreamClose r])%list (range_header_nonempty _ _))
      as (res & tl & Hopen & Hnet & Hpos).
    rewrite Hopen. rewrite <- List.app_assoc. cbn [List.app].
    destruct res as [e | rd]; do 3 eexists;
      (split; [reflexivity |]); (split; [exact Hnet |]); cbn;
      repeat split; try reflexivity.
    exists rd; repeat split; auto.
  - destruct (S3FS_open_spec (fs f) (name f) (range_header start end_)
                w (range_header_nonempty _ _))
      as (res & tl & Hopen & Hnet & Hpos).
    rewrite Hopen. cbn [List.app].
    destruct res as [e | rd]; do 3 eexists;
      (split; [reflexivity |]); (split; [exact Hnet |]); cbn;
      repeat split; try reflexivity.
    exists rd; repeat split; auto.
Qed.

(** ** Seek *)

(** C7. [Seek] fails with the usage error "must call Fetch before Seek"
    whenever the reader has no backing stream, whatever the offset and
    whence; and a seek relative to the end ([whence = 2]) fails with a
    usage error in every state of the reader. Neither changes the reader. *)
Theorem Seek_usage_errors (f : explicitFetchFile) (offset whence : Z) :
  (rc f = None ->
   Seek f offset whence = ((0, Some errMustFetch), f)
   /\ is_usage errMustFetch = true
   /\ Error errMustFetch = Some "s3vfs: must call Fetch before Seek")
  /\ (exists e, Seek f offset 2 = ((0, Some e), f) /\ is_usage e = true).
Proof.
  split.
  - intros H. unfold Seek. rewrite H. repeat split.
  - unfold Seek. destruct (rc f) as [r |].
    + exists errRelOfs. split; reflexivity.
    + exists errMustFetch. split; reflexivity.
Qed.

Lemma set_rc_same (f : explicitFetchFile) (r : bytesReader) :
  rc f = Some r -> set_rc f (Some {| s := s r; i := i r |}) = f.
Proof.
  destruct f as [nm fs0 sb eb rc0 af], r as [s0 i0]; cbn.
  intros ->; reflexivity.
Qed.

(** Asking for the current offset leaves the reader as it is and answers
    the position in the object. *)
Lemma Seek_current (f : explicitFetchFile) (r : bytesReader) :
  rc f = Some r -> 0 <= i r <= Int64.max_signed ->
  Seek f 0 1 = ((Int64.add (i r) (startByte f), None), f).
Proof.
  intros Hrc Hi. unfold Seek, bytesReader_Seek. rewrite Hrc.
  change (1 =? 2) with false. change (1 =? 0) with false.
  change (1 =? 1) with true. cbv iota.
  assert (Hw : Int64.add (i r) 0 = i r).
  { unfold Int64.add. rewrite Z.add_0_r. apply wrap_in_range.
    unfold Int64.in_range, Int64.min_signed, Int64.max_signed in *. lia. }
  rewrite Hw. destruct (Z.ltb_spec (i r) 0) as [Hneg | _]; [lia |].
  rewrite (set_rc_same f r Hrc). reflexivity.
Qed.

(** ** Read *)

Lemma Read_without_stream (f : explicitFetchFile) (n : nat) (w : World) :
  rc f = None -> Read f n w = ((Returned "" (Some errMustFetch), f), w).
Proof. intros H. unfold Read, Seek. rewrite H. reflexivity. Qed.

Lemma Reads_without_stream (f : explicitFetchFile) (ns : list nat) (w : World) :
  rc f = None ->
  exists rs, Reads f ns w = ((rs, f), w)
             /\ List.Forall failed rs /\ List.length rs = List.length ns.
Proof.
  intros H. induction ns as [| n ns IH].
  - exists []. repeat split. constructor.
  - destruct IH as (rs & Hrun & Hall & Hlen).
    exists (Returned "" (Some errMustFetch) :: rs).
    cbn [Reads]. io. rewrite (Read_without_stream f n w H). rewrite Hrun.
    repeat split.
    + constructor; [exists errMustFetch; reflexivity | exact Hall].
    + cbn. rewrite Hlen. reflexivity.
Qed.

Lemma overfetch_end (o n : Z) :
  0 <= n -> Int64.in_range o -> Int64.in_range (o + n + 4 * n) ->
  Int64.add o n = o + n
  /\ Int64.add (o + n) (Int64.mul (Int64.sub (o + n) o) 4) = o + n + 4 * n.
Proof.
  intros Hn Ho He.
  assert (Hr : Int64.in_range (o + n) /\ Int64.in_range n).
  { unfold Int64.in_range, Int64.min_signed, Int64.max_signed in *. lia. }
  destruct Hr as [Hon Hnr].
  unfold Int64.add, Int64.mul, Int64.sub. split.
  - apply wrap_in_range; exact Hon.
  - replace (o + n - o) with n by ring.
    rewrite (wrap_in_range n Hnr). rewrite wrap_add_wrap_r.
    replace (o + n + n * 4) with (o + n + 4 * n) by ring.
    apply wrap_in_range; exact He.
Qed.

(** C1, as the code has it. With autofetch enabled: a reader without a
    backing stream (the state [OpenFetcher] leaves it in) fails the read
    with the must-Fetch-before-Seek usage error and fetches nothing; a
    reader with a backing stream at object offset [o] whose span
    [o, o + n) is not within the window makes exactly one
    [Fetch(o, o + n + 4n)], which closes the old stream and sends one
    ranged request, and only then reads from the new stream; and when the
    span is within the window the read goes to the stream with nothing
    sent at all. Offsets are taken not to overflow an [int64]. *)
Theorem Read_autofetch (f : explicitFetchFile) (n : nat) (w : World) :
  autofetch f = true ->
  (rc f = None -> Read f n w = ((Returned "" (Some errMustFetch), f), w))
  /\ (forall r : bytesReader,
       rc f = Some r -> 0 <= i r <= Int64.max_signed ->
       let o := i r + startByte f in
       let fetchEnd := o + Z.of_nat n + 4 * Z.of_nat n in
       Int64.in_range o -> Int64.in_range fetchEnd ->
       (isFetched f o (o + Z.of_nat n) = false ->
        exists err f' tl,
          let w' := (w ++ EvStreamClose r
                        :: EvRoundTrip (fetch_request f o fetchEnd) :: tl)%list in
          Fetch f o fetchEnd w = ((err, f'), w')
          /\ Read f n w
             = (match err with
                | Some x => (Returned "" (Some x), f')
                | None => rc_Read f' n
                end, w')
          /\ network w'
             = (network w ++ [EvRoundTrip (fetch_request f o fetchEnd)])%list)
       /\ (isFetched f o (o + Z.of_nat n) = true ->
           Read f n w = (rc_Read f n, w))).
Proof.
  intros Hauto. split; [apply Read_without_stream |].
  intros r Hrc Hi o fetchEnd Ho He.
  destruct (overfetch_end o (Z.of_nat n) ltac:(lia) Ho He) as [Hend Hfe].
  assert (Hofs : Int64.add (i r) (startByte f) = o)
    by (apply wrap_in_range; exact Ho).
  split; intros Hspan.
  - assert (Hfar : isFetched f o fetchEnd = false).
    { destruct (isFetched f o fetchEnd) eqn:Hfar; [| reflexivity].
      apply isFetched_true_iff in Hfar. destruct Hfar as (Hs & _ & Hlo & Hhi).
      assert (Hin : isFetched f o (o + Z.of_nat n) = true).
      { apply isFetched_true_iff. subst fetchEnd. repeat split; auto; lia. }
      congruence. }
    destruct (Fetch_spec f o fetchEnd w Hfar)
      as (err & f' & tl & Hfetch & Hnet & _).
    unfold released in Hfetch. rewrite Hrc in Hfetch. cbn [List.app] in Hfetch.
    exists err, f', tl. cbv zeta. split; [exact Hfetch |]. split.
    + unfold Read. rewrite (Seek_current f r Hrc Hi). rewrite Hofs, Hend.
      rewrite Hspan, Hauto. cbn [negb]. cbv zeta. rewrite Hfe.
      io. fold fetchEnd. rewrite Hfetch. destruct err; reflexivity.
    + rewrite network_app. cbn [network List.filter is_network].
      fold (network tl). rewrite Hnet. reflexivity.
  - unfold Read. rewrite (Seek_current f r Hrc Hi). rewrite Hofs, Hend.
    rewrite Hspan. reflexivity.
Qed.

(** ** A failed Fetch *)

(** C2. When [Fetch] fails, the reader is left without a backing stream
    and with the window [0, 0); the stream it had was closed before the
    request for the new range went out; and from then on every [Read]
    fails, leaving the reader and the world as they are, so that nothing
    of the old window is ever returned. *)
Theorem Fetch_failure_empties (f f' : explicitFetchFile) (start end_ : Z)
  (w w' : World) (e : error) :
  window_ok f ->
  Fetch f start end_ w = ((Some e, f'), w') ->
  (rc f' = None /\ startByte f' = 0 /\ endByte f' = 0)
  /\ (exists tl,
        w' = (w ++ released f
                ++ EvRoundTrip (fetch_request f start end_) :: tl)%list)
  /\ (forall n w2, Read f' n w2 = ((Returned "" (Some errMustFetch), f'), w2))
  /\ (forall ns w2,
        exists rs, Reads f' ns w2 = ((rs, f'), w2)
                   /\ List.Forall failed rs
                   /\ List.length rs = List.length ns).
Proof.
  intros Hok Hfetch.
  destruct (isFetched f start end_) eqn:Hin.
  - rewrite (Fetch_noop f start end_ w Hin) in Hfetch. discriminate.
  - destruct (Fetch_spec f start end_ w Hin)
      as (err & f1 & tl & Hrun & _ & _ & _ & _ & Hout).
    rewrite Hrun in Hfetch. injection Hfetch as -> -> <-.
    destruct Hout as (Hrc & Hsb & Heb).
    assert (Hwin : startByte f' = 0 /\ endByte f' = 0).
    { rewrite Hsb, Heb. destruct (rc f) eqn:Hold; [split; reflexivity |].
      apply Hok; exact Hold. }
    split; [tauto |]. split; [exists tl; reflexivity |]. split.
    + intros n w2. apply Read_without_stream; exact Hrc.
    + intros ns w2. apply Reads_without_stream; exact Hrc.
Qed.

(** The empty-window invariant holds of a new reader and is kept by
    every operation. *)
Lemma window_ok_OpenFetcher (fs0 : S3FS) (nm : string) (w : World) :
  exists f, OpenFetcher fs0 nm w = ((Some f, None), w) /\ window_ok f.
Proof. eexists; split; [reflexivity |]. intros _; split; reflexivity. Qed.


Lemma window_ok_Fetch (f : explicitFetchFile) (start end_ : Z) (w : World) :
  window_ok f -> window_ok (snd (fst (Fetch f start end_ w))).
Proof.
  intros Hok. destruct (isFetched f start end_) eqn:Hin.
  - rewrite (Fetch_noop f start end_ w Hin). exact Hok.
  - destruct (Fetch_spec f start end_ w Hin)
      as (err & f1 & tl & Hrun & _ & _ & _ & _ & Hout).
    rewrite Hrun. cbn [fst snd]. destruct err as [e |].
    + destruct Hout as (_ & Hsb & Heb). intros _. rewrite Hsb, Heb.
      destruct (rc f) eqn:Hold; [split; reflexivity | apply Hok; exact Hold].
    + destruct Hout as (rd & Hrc & _). intros H. congruence.
Qed.

Lemma window_ok_Seek (f : explicitFetchFile) (offset whence : Z) :
  window_ok f -> window_ok (snd (Seek f offset whence)).
Proof.
  intros Hok. unfold Seek. destruct (rc f) as [r |] eqn:Hrc; [| exact Hok].
  destruct (whence =? 2); [exact Hok |].
  destruct (bytesReader_Seek r _ whence) as [[n err] r'].
  cbn. intros H. discriminate.
Qed.

Lemma window_ok_Close (f : explicitFetchFile) (w : World) :
  window_ok f -> window_ok (snd (fst (Close f w))).
Proof.
  intros Hok. unfold Close. destruct (rc f) as [r |] eqn:Hrc.
  - cbn. intros _. split; reflexivity.
  - exact Hok.
Qed.

Lemma window_ok_rc_Read (f : explicitFetchFile) (n : nat) :
  window_ok f -> window_ok (snd (rc_Read f n)).
Proof.
  intros Hok. unfold rc_Read. destruct (rc f) as [r |]; [| exact Hok].
  destruct (bytesReader_Read r n) as [[data err] r']. cbn. intros H.
  discriminate.
Qed.

Lemma window_ok_Read (f : explicitFetchFile) (n : nat) (w : World) :
  window_ok f -> window_ok (snd (fst (Read f n w))).
Proof.
  intros Hok. unfold Read.
  pose proof (window_ok_Seek f 0 1 Hok) as Hseek.
  destruct (Seek f 0 1) as [[ofs err] f1]. cbn [snd] in Hseek.
  destruct err as [e |]; [exact Hseek |].
  destruct (isFetched f1 ofs (Int64.add ofs (Z.of_nat n)));
    cbn [negb]; [apply window_ok_rc_Read; exact Hseek |].
  destruct (autofetch f1); cbn [negb]; [| exact Hseek].
  io.
  pose proof (window_ok_Fetch f1 ofs
                (Int64.add (Int64.add ofs (Z.of_nat n))
                   (Int64.mul (Int64.sub (Int64.add ofs (Z.of_nat n)) ofs) 4))
                w Hseek) as Hfetch.
  destruct (Fetch f1 ofs _ w) as [[err f2] w'].
  cbn [fst snd] in Hfetch. destruct err as [e |]; [exact Hfetch |].
  apply window_ok_rc_Read; exact Hfetch.
Qed.

(** X18. Whenever [Read] gets as far as reading from the stream, there
    is a stream: the call through a nil [rc] never happens, whatever the
    state of the reader and whatever the backend answers. *)
Lemma Read_never_panics (f : explicitFetchFile) (n : nat) (w : World) :
  fst (fst (Read f n w)) <> Panicked.
Proof.
  unfold Read, Seek.
  destruct (rc f) as [r |] eqn:Hrc; [| cbn; discriminate].
  change (1 =? 2) with false. cbv iota.
  destruct (bytesReader_Seek r _ 1) as [[k err] r'].
  destruct err as [e |]; [cbn; discriminate |].
  set (f1 := set_rc f (Some r')). set (ofs := Int64.add k (startByte f)).
  assert (Hread : forall g, rc g <> None -> fst (rc_Read g n) <> Panicked).
  { intros g Hg. unfold rc_Read. destruct (rc g) as [rg |]; [| congruence].
    destruct (bytesReader_Read rg n) as [[data err] rg']. cbn. discriminate. }
  destruct (isFetched f1 ofs (Int64.add ofs (Z.of_nat n))) eqn:Hin; cbn [negb].
  - cbn [ret fst]. apply Hread. cbn. discriminate.
  - destruct (autofetch f1); cbn [negb]; [| cbn; discriminate].
    io.
    set (fe := Int64.add _ (Int64.mul _ 4)).
    destruct (isFetched f1 ofs fe) eqn:Hfar.
    + rewrite (Fetch_noop f1 ofs fe w Hfar). cbn [fst].
      apply Hread. cbn. discriminate.
    + destruct (Fetch_spec f1 ofs fe w Hfar)
        as (err & f2 & tl & Hrun & _ & _ & _ & _ & Hout).
      rewrite Hrun. destruct err as [e |]; [cbn; discriminate |].
      destruct Hout as (rd & Hrc2 & _). cbn [fst]. apply Hread. congruence.
Qed.

(** ** OpenFetcher *)

(** C10. [OpenFetcher] always hands back a reader and no error, leaves
    the world as it found it, and the reader has autofetch on, no backing
    stream and the window [0, 0). *)
Theorem OpenFetcher_fresh (fs0 : S3FS) (nm : string) (w : World) :
  exists f,
    OpenFetcher fs0 nm w = ((Some f, None), w)
    /\ autofetch f = true
    /\ rc f = None /\ startByte f = 0 /\ endByte f = 0
    /\ name f = nm /\ fs f = fs0.
Proof. eexists. repeat split. Qed.

(** ** Lstat *)

Lemma client_transport (fs0 : S3FS) :
  Transport (client_of (config fs0)) = configured fs0.
Proof.
  unfold client_of, configured. destruct (Client (config fs0)); reflexivity.
Qed.

(** [lstat] is the root test, then the listing, then the probe. *)
Lemma lstat_steps (fs0 : S3FS) (nm0 : string) (w : World) :
  lstat fs0 nm0 w
  = if String.eqb (normalize nm0) "." then (inr (synthetic_dir "."), w)
    else
      let (r, w1) := ListByPrefix fs0 (normalize nm0) w in
      match r with
      | inl err => (inl err, w1)
      | inr Contents =>
          if Nat.eqb (List.length Contents) 1
          then (inr (synthetic_dir (normalize nm0)), w1)
          else probe fs0 (normalize nm0) w1
      end.
Proof.
  unfold lstat, ListByPrefix, probe, probe_request, list_target, normalize,
    synthetic_dir.
  set (nm := TrimPrefix (filepath_Clean nm0) "/").
  destruct (String.eqb nm "."); [reflexivity |].
  destruct (NewRequest_err _) as [e |]; [reflexivity |].
  io.
  destruct (Client_Do _ _ w) as [[e | resp] w1]; [reflexivity |].
  destruct (StatusCode resp =? 200); cbn [negb].
  - unfold ReadAll, Body_Close. io.
    destruct (closed (RespBody resp)).
    + reflexivity.
    + destruct (read_err (src (RespBody resp))) as [e |]; [reflexivity |].
      destruct (xml_Decode _) as [e | Contents]; [reflexivity |].
      destruct (close_err (src (RespBody resp))) as [e |]; [reflexivity |].
      destruct (Nat.eqb (List.length Contents) 1); reflexivity.
  - unfold newRespError, ReadAll, Body_Close. io. reflexivity.
Qed.

(** A listing that succeeds sent the one listing request, read the body
    and closed it. *)
Lemma ListByPrefix_ok (fs0 : S3FS) (nm : string) (w w1 : World)
  (Contents : list string) :
  ListByPrefix fs0 nm w = (inr Contents, w1) ->
  exists b,
    w1 = (w ++ [EvRoundTrip
                  (on_wire (configured fs0)
                     {| Method := GET; Target := list_target fs0 nm;
                        Range := None |});
                EvRead b; EvClose b])%list
    /\ xml_Decode (content b) = inr Contents.
Proof.
  unfold ListByPrefix.
  destruct (NewRequest_err _) as [e |]; [discriminate |].
  io.
  destruct (Client_Do_spec (client_of (config fs0))
              {| Method := GET; Target := list_target fs0 nm; Range := None |} w)
    as (res & Hdo & Hopen).
  rewrite client_transport in Hdo. rewrite Hdo.
  destruct res as [e | resp]; [discriminate |].
  specialize (Hopen resp eq_refl).
  destruct resp as [code clen lm [b isclosed]]. cbn in Hopen. subst isclosed.
  unfold newRespError, ReadAll, Body_Close. io. crunch.
  destruct (code =? 200); crunch; [| discriminate].
  destruct (read_err b) as [e |]; [discriminate |].
  destruct (xml_Decode (content b)) as [e | C] eqn:Hdec; [discriminate |].
  destruct (close_err b) as [e |]; [discriminate |].
  intros H. injection H as <- <-. exists b. split; [| exact Hdec].
  rewrite <- !List.app_assoc. reflexivity.
Qed.

(** The root branch. On a path whose cleaned form without its leading
    slash is the dot, [Lstat] (and so [Stat]) answers
    the synthetic directory, of size 0 and with the zero time, and leaves
    the world as it found it: nothing is sent, whatever the backend. *)
Theorem Lstat_root (fs0 : S3FS) (nm0 : string) (w : World) :
  normalize nm0 = "." ->
  Lstat fs0 nm0 w = (inr (synthetic_dir "."), w)
  /\ Stat fs0 nm0 w = (inr (synthetic_dir "."), w)
  /\ IsDir (synthetic_dir ".") = true
  /\ fi_size (synthetic_dir ".") = 0
  /\ fi_modTime (synthetic_dir ".") = TimeZero.
Proof.
  intros Hroot.
  assert (H : Lstat fs0 nm0 w = (inr (synthetic_dir "."), w)).
  { unfold Lstat. io. rewrite lstat_steps, Hroot. reflexivity. }
  repeat split; try exact H.
Qed.

(** The directory branch. Off the root, when the listing under [p/]
    comes back with exactly one key,
    [Lstat(p)] answers a directory of size 0. The world is then the one
    the listing left: the only request sent is the listing, the key [p]
    itself is never probed, so whether an object exists at [p] has no
    bearing on the answer. *)
Theorem Lstat_directory_first (fs0 : S3FS) (nm0 : string) (w w1 : World)
  (Contents : list string) :
  normalize nm0 <> "." ->
  ListByPrefix fs0 (normalize nm0) w = (inr Contents, w1) ->
  Contents <> [] -> (List.length Contents <= 1)%nat ->
  Lstat fs0 nm0 w = (inr (synthetic_dir (normalize nm0)), w1)
  /\ IsDir (synthetic_dir (normalize nm0)) = true
  /\ fi_size (synthetic_dir (normalize nm0)) = 0
  /\ network w1
     = (network w
        ++ [EvRoundTrip
              (on_wire (configured fs0)
                 {| Method := GET; Target := list_target fs0 (normalize nm0);
                    Range := None |})])%list.
Proof.
  intros Hnot Hlist Hne Hmax.
  assert (Hone : Nat.eqb (List.length Contents) 1 = true).
  { apply Nat.eqb_eq. destruct Contents as [| k [| k' C]]; cbn in *;
      [congruence | reflexivity | lia]. }
  repeat split.
  - unfold Lstat. io. rewrite lstat_steps.
    apply String.eqb_neq in Hnot. rewrite Hnot, Hlist, Hone. reflexivity.
  - destruct (ListByPrefix_ok _ _ _ _ _ Hlist) as (b & -> & _).
    rewrite network_app. reflexivity.
Qed.

Lemma Lstat_of_lstat (fs0 : S3FS) (nm0 : string) (w : World) :
  Lstat fs0 nm0 w
  = (match fst (lstat fs0 nm0 w) with
     | inl err => inl (PathError "lstat" (S3FS_url fs0 nm0) err)
     | inr fi => inr fi
     end, snd (lstat fs0 nm0 w)).
Proof.
  unfold Lstat. io. destruct (lstat fs0 nm0 w) as [[e | fi] w1]; reflexivity.
Qed.

(** C6. Off the root, when the listing under [p/] comes back empty,
    [lstat] sends a HEAD for the key itself, and nothing else. If the
    answer is 404 the result is [os.ErrNotExist]; if it is any other
    status than 200 the result is a [respError] holding that status and
    the body of the answer; if it is 200 the result is a file whose size
    is the answer's content length and whose time is its last-modified
    header (the zero time if that does not parse). [Lstat] hands the
    file on as it is and the errors inside a [PathError]. *)
Theorem Lstat_probe (fs0 : S3FS) (nm0 : string) (w w1 w2 : World)
  (resp : Response) :
  normalize nm0 <> "." ->
  ListByPrefix fs0 (normalize nm0) w = (inr [], w1) ->
  NewRequest_err (S3FS_url fs0 (normalize nm0)) = None ->
  Client_Do (client_of (config fs0)) (probe_request fs0 (normalize nm0)) w1
  = (inr resp, w2) ->
  let sent := on_wire (configured fs0) (probe_request fs0 (normalize nm0)) in
  let file :=
    {| fi_name := normalize nm0; fi_size := ContentLength resp; fi_mode := 0;
       fi_modTime := match time_Parse (last_modified resp) with
                     | inr t => t
                     | inl _ => TimeZero
                     end;
       fi_sys := None |} in
  let status_error :=
    respError (StatusCode resp) (content (src (RespBody resp))) in
  (Method sent = HEAD /\ Target sent = S3FS_url fs0 (normalize nm0))
  /\ network (snd (Lstat fs0 nm0 w)) = (network w1 ++ [EvRoundTrip sent])%list
  /\ (StatusCode resp = StatusNotFound ->
      fst (lstat fs0 nm0 w) = inl ErrNotExist
      /\ fst (Lstat fs0 nm0 w)
         = inl (PathError "lstat" (S3FS_url fs0 nm0) ErrNotExist))
  /\ (StatusCode resp <> StatusNotFound -> StatusCode resp <> StatusOK ->
      fst (lstat fs0 nm0 w) = inl status_error
      /\ fst (Lstat fs0 nm0 w)
         = inl (PathError "lstat" (S3FS_url fs0 nm0) status_error))
  /\ (StatusCode resp = StatusOK ->
      fst (lstat fs0 nm0 w) = inr file
      /\ fst (Lstat fs0 nm0 w) = inr file
      /\ IsDir file = false).
Proof.
  intros Hnot Hlist Hreq Hdo sent file status_error.
  destruct (Client_Do_spec (client_of (config fs0))
              (probe_request fs0 (normalize nm0)) w1) as (res & Hdo' & Hopen).
  rewrite client_transport in Hdo'. rewrite Hdo in Hdo'.
  injection Hdo' as <- Hw2. specialize (Hopen resp eq_refl).
  assert (Hsteps : lstat fs0 nm0 w = probe fs0 (normalize nm0) w1).
  { rewrite lstat_steps. apply String.eqb_neq in Hnot.
    rewrite Hnot, Hlist. reflexivity. }
  assert (Hprobe :
    probe fs0 (normalize nm0) w1
    = if StatusCode resp =? StatusNotFound
      then (inl ErrNotExist, (w2 ++ [EvClose (src (RespBody resp))])%list)
      else if negb (StatusCode resp =? 200)
      then (inl status_error,
            (w2 ++ [EvRead (src (RespBody resp)); EvClose (src (RespBody resp));
                    EvClose (src (RespBody resp))])%list)
      else (inr file, (w2 ++ [EvClose (src (RespBody resp))])%list)).
  { unfold probe. rewrite Hreq. io. rewrite Hdo.
    subst file status_error.
    destruct resp as [code clen lm [b isclosed]]. cbn in Hopen. subst isclosed.
    unfold newRespError, ReadAll, Body_Close. io. crunch.
    destruct (code =? StatusNotFound); [reflexivity |].
    destruct (code =? 200); crunch; [reflexivity |].
    rewrite <- !List.app_assoc. reflexivity. }
  rewrite Lstat_of_lstat, Hsteps, Hprobe. cbn [fst snd].
  split; [apply on_wire_target |]. split.
  { destruct (StatusCode resp =? StatusNotFound);
      [| destruct (negb (StatusCode resp =? 200))];
      cbn [snd]; rewrite Hw2, !network_app; cbn; fold sent;
      rewrite List.app_nil_r; reflexivity. }
  split; [| split].
  - intros ->. cbn. split; reflexivity.
  - intros H404 H200.
    apply Z.eqb_neq in H404. apply Z.eqb_neq in H200.
    rewrite H404. change StatusOK with 200 in H200. rewrite H200.
    cbn. split; reflexivity.
  - intros ->. cbn. repeat split.
Qed.

(** ** Remove *)

(** C9, as the code has it. [Remove] sends one DELETE for the URL the
    path maps to. When the answer is 204, the body that comes back is
    closed, without being read, before [Remove] returns, and the result is
    the error of that close (none, normally). When the request fails,
    its error is the result; when the answer has another status, the
    client library reads and closes the body and the result is its
    status error. *)
Theorem Remove_closes_body (fs0 : S3FS) (nm : string) (w : World) :
  let req := {| Method := DELETE; Target := S3FS_url fs0 nm; Range := None |} in
  let sent := on_wire (configured fs0) req in
  (Method sent = DELETE /\ Target sent = S3FS_url fs0 nm)
  /\ exists res,
      Client_Do (client_of (config fs0)) req w
      = (res, (w ++ [EvRoundTrip sent])%list)
      /\ match res with
         | inl e => Remove fs0 nm w = (Some e, (w ++ [EvRoundTrip sent])%list)
         | inr resp =>
             let b := src (RespBody resp) in
             if StatusCode resp =? StatusNoContent
             then Remove fs0 nm w
                  = (close_err b, (w ++ [EvRoundTrip sent; EvClose b])%list)
             else Remove fs0 nm w
                  = (Some (s3utilError (StatusCode resp) (content b)),
                     (w ++ [EvRoundTrip sent; EvRead b; EvClose b])%list)
         end.
Proof.
  intros req sent. split; [apply on_wire_target |].
  destruct (Client_Do_spec (client_of (config fs0)) req w)
    as (res & Hdo & Hopen).
  rewrite client_transport in Hdo. fold sent in Hdo.
  exists res. split; [exact Hdo |].
  unfold Remove, s3util_Delete. io. fold req. rewrite Hdo.
  destruct res as [e | resp]; [reflexivity |].
  specialize (Hopen resp eq_refl).
  destruct resp as [code clen lm [b isclosed]]. cbn in Hopen. subst isclosed.
  unfold s3util_newRespError, ReadAll, Body_Close. io. crunch.
  destruct (code =? StatusNoContent); crunch;
    rewrite <- !List.app_assoc; reflexivity.
Qed.

(** ** Errors and their wrapping *)

(** C8, as the code has it. Every error of [Lstat] and of [Stat] is a
    [PathError] with the operation [lstat] and the URL of the path; every
    error of [Create] is one with [create]; [Open] and [ReadDir] wrap the
    error of their first library call with [open] and [readdir]; the
    usage error a reader without a stream gives to [Read] comes back as
    it is, not inside a [PathError]. *)
Theorem adapter_errors_wrapped (fs0 : S3FS) (nm : string) (w : World) :
  (forall e, fst (Lstat fs0 nm w) = inl e ->
             exists e0, e = PathError "lstat" (S3FS_url fs0 nm) e0)
  /\ (forall e, fst (Stat fs0 nm w) = inl e ->
                exists e0, e = PathError "lstat" (S3FS_url fs0 nm) e0)
  /\ (forall e, fst (Create fs0 nm w) = inl e ->
                exists e0, e = PathError "create" (S3FS_url fs0 nm) e0)
  /\ (forall e0 w1, s3util_Open (S3FS_url fs0 nm) (config fs0) w = (inl e0, w1) ->
                    Open fs0 nm w
                    = (inl (PathError "open" (S3FS_url fs0 nm) e0), w1))
  /\ (forall e0, NewFile_err (S3FS_url fs0 nm) = Some e0 ->
                 ReadDir fs0 nm w
                 = (inl (PathError "readdir" (S3FS_url fs0 nm) e0), w))
  /\ (forall f n, rc f = None ->
                  fst (fst (Read f n w)) = Returned "" (Some errMustFetch)
                  /\ is_PathError errMustFetch = false).
Proof.
  assert (HL : forall e, fst (Lstat fs0 nm w) = inl e ->
                         exists e0, e = PathError "lstat" (S3FS_url fs0 nm) e0).
  { intros e. rewrite Lstat_of_lstat. cbn [fst].
    destruct (fst (lstat fs0 nm w)) as [e0 |]; [| discriminate].
    intros H. injection H as <-. exists e0. reflexivity. }
  split; [exact HL |]. split; [exact HL |]. split; [| split; [| split]].
  - intros e. unfold Create. cbn [fst].
    destruct (Create_err w _) as [e0 |]; [| discriminate].
    intros H. injection H as <-. exists e0. reflexivity.
  - intros e0 w1 H. unfold Open, S3FS_open. io. cbv iota. rewrite H.
    reflexivity.
  - intros e0 H. unfold ReadDir. rewrite H. reflexivity.
  - intros f n H. rewrite (Read_without_stream f n w H). split; reflexivity.
Qed.

(** ** Fetch and its window *)

(** X19. A fetch of a span within the window sends nothing and changes
    nothing; any other fetch sends one request, a GET of the object whose
    range header is [bytes=start-end], and on success the window is
    [start, end) with the stream at its first byte. *)
Lemma Fetch_window (f : explicitFetchFile) (start end_ : Z) (w : World) :
  (isFetched f start end_ = true -> Fetch f start end_ w = ((None, f), w))
  /\ (isFetched f start end_ = false ->
      exists err f' w',
        Fetch f start end_ w = ((err, f'), w')
        /\ network w'
           = (network w ++ [EvRoundTrip (fetch_request f start end_)])%list
        /\ (err = None ->
            startByte f' = start /\ endByte f' = end_
            /\ exists rd, rc f' = Some rd /\ i rd = 0)).
Proof.
  split; [apply Fetch_noop |]. intros Hin.
  destruct (Fetch_spec f start end_ w Hin)
    as (err & f' & tl & Hrun & Hnet & _ & _ & _ & Hout).
  exists err, f', (w ++ released f
                     ++ EvRoundTrip (fetch_request f start end_) :: tl)%list.
  split; [exact Hrun |]. split.
  - rewrite !network_app. cbn [network List.filter is_network].
    fold (network tl). rewrite Hnet.
    unfold released. destruct (rc f); reflexivity.
  - intros ->. destruct Hout as (rd & Hrc & Hi & Hs & He).
    repeat split; auto. exists rd; auto.
Qed.

Lemma fetch_request_plain (f : explicitFetchFile) (start end_ : Z) :
  match configured (fs f) with Some (rangeTransport _ _) => False | _ => True end ->
  fetch_request f start end_
  = {| Method := GET; Target := S3FS_url (fs f) (name f);
       Range := Some (range_header start end_) |}.
Proof. intros H. unfold fetch_request. apply on_wire_plain; exact H. Qed.

(** * Further properties of the reader *)

Lemma set_rc_id (f : explicitFetchFile) (r : bytesReader) :
  rc f = Some r -> set_rc f (Some r) = f.
Proof. destruct f; cbn; intros ->; reflexivity. Qed.

(** ** Close *)

(** X1. [Close] never fails and sends nothing: it logs the close of the
    stream if there is one, leaves the reader without a stream (and, if
    it had one, with the window [0, 0)); closing again changes nothing
    and logs nothing; and a closed reader refuses every [Seek]. *)
Theorem Close_idempotent (f : explicitFetchFile) (w : World) :
  exists f1,
    Close f w = ((None, f1), (w ++ released f)%list)
    /\ network (w ++ released f)%list = network w
    /\ rc f1 = None
    /\ (rc f <> None -> startByte f1 = 0 /\ endByte f1 = 0)
    /\ (forall w1, Close f1 w1 = ((None, f1), w1))
    /\ (forall offset whence,
          Seek f1 offset whence = ((0, Some errMustFetch), f1)).
Proof.
  unfold Close, released. destruct (rc f) as [r |] eqn:Hrc.
  - eexists. split; [reflexivity |]. split.
    { rewrite network_app. cbn. apply List.app_nil_r. }
    cbn. repeat split.
  - exists f. rewrite List.app_nil_r. split; [reflexivity |].
    split; [reflexivity |]. split; [exact Hrc |].
    split; [congruence |]. split.
    + intros w1. rewrite Hrc. reflexivity.
    + intros offset whence. unfold Seek. rewrite Hrc. reflexivity.
Qed.

(** ** Seek *)

(** X2. With a stream, an absolute [Seek] to an offset at or after the
    window's start answers that same offset, puts the stream at the
    offset less the window's start, and asking for the current offset
    afterwards answers the offset again. *)
Theorem Seek_absolute_round_trip (f : explicitFetchFile) (r : bytesReader)
  (offset : Z) :
  rc f = Some r ->
  Int64.in_range offset -> Int64.in_range (offset - startByte f) ->
  startByte f <= offset ->
  let f' := set_rc f (Some {| s := s r; i := offset - startByte f |}) in
  Seek f offset 0 = ((offset, None), f')
  /\ Seek f' 0 1 = ((offset, None), f').
Proof.
  intros Hrc Hoff Hrel Hge f'.
  assert (Hsub : Int64.sub offset (startByte f) = offset - startByte f)
    by (apply wrap_in_range; exact Hrel).
  assert (Hadd : Int64.add (offset - startByte f) (startByte f) = offset).
  { unfold Int64.add. replace (offset - startByte f + startByte f) with offset
      by ring. apply wrap_in_range; exact Hoff. }
  split.
  - unfold Seek, bytesReader_Seek. rewrite Hrc.
    change (0 =? 2) with false. change (0 =? 0) with true. cbv iota.
    rewrite Hsub. destruct (Z.ltb_spec (offset - startByte f) 0); [lia |].
    rewrite Hadd. reflexivity.
  - assert (Hi : 0 <= i {| s := s r; i := offset - startByte f |}
                 <= Int64.max_signed).
    { cbn [i]. unfold Int64.in_range, Int64.max_signed in *. lia. }
    rewrite (Seek_current f' _ eq_refl Hi). cbn [i]. subst f'. cbn [startByte set_rc].
    rewrite Hadd. reflexivity.
Qed.

(** X3. With a stream, when [a] and [a + d] are both at or after the
    window's start and nothing overflows, an absolute [Seek] to [a]
    followed by a relative one by [d] lands where the absolute [Seek] to
    [a + d] lands, and answers [a + d]. *)
Theorem Seek_absolute_then_relative (f : explicitFetchFile) (r : bytesReader)
  (a d : Z) :
  rc f = Some r ->
  Int64.in_range a -> Int64.in_range (a - startByte f) -> startByte f <= a ->
  Int64.in_range (a + d) -> Int64.in_range (a + d - startByte f) ->
  startByte f <= a + d ->
  Seek (snd (Seek f a 0)) d 1 = Seek f (a + d) 0
  /\ fst (Seek f (a + d) 0) = (a + d, None).
Proof.
  intros Hrc Ha Hra Hge Had Hrad Hged.
  assert (Hsub : forall x, Int64.in_range (x - startByte f) ->
                           Int64.sub x (startByte f) = x - startByte f)
    by (intros x Hx; apply wrap_in_range; exact Hx).
  assert (Hadd : forall x, Int64.in_range x ->
                           Int64.add (x - startByte f) (startByte f) = x).
  { intros x Hx. unfold Int64.add.
    replace (x - startByte f + startByte f) with x by ring.
    apply wrap_in_range; exact Hx. }
  assert (Hfull : forall x, Int64.in_range x -> Int64.in_range (x - startByte f) ->
            startByte f <= x ->
            Seek f x 0
            = ((x, None), set_rc f (Some {| s := s r; i := x - startByte f |}))).
  { intros x Hx Hrx Hgx. unfold Seek, bytesReader_Seek. rewrite Hrc.
    change (0 =? 2) with false. change (0 =? 0) with true. cbv iota.
    rewrite (Hsub x Hrx). destruct (Z.ltb_spec (x - startByte f) 0); [lia |].
    rewrite (Hadd x Hx). reflexivity. }
  rewrite (Hfull a Ha Hra Hge), (Hfull (a + d) Had Hrad Hged). cbn [fst snd].
  split; [| reflexivity].
  unfold Seek, bytesReader_Seek. cbn [rc set_rc startByte s i].
  change (1 =? 2) with false. change (1 =? 0) with false.
  change (1 =? 1) with true. cbv iota.
  assert (Hpos : Int64.add (a - startByte f) d = a + d - startByte f).
  { unfold Int64.add. replace (a - startByte f + d) with (a + d - startByte f)
      by ring. apply wrap_in_range; exact Hrad. }
  rewrite Hpos. destruct (Z.ltb_spec (a + d - startByte f) 0); [lia |].
  rewrite (Hadd (a + d) Had). reflexivity.
Qed.

(** X4. With a stream, a [Seek] the stream refuses changes nothing and
    answers the window's start, not zero, beside the error: so it is for
    a whence other than 0, 1 and 2, and for an absolute offset before the
    window's start. *)
Theorem Seek_rejected (f : explicitFetchFile) (r : bytesReader) :
  rc f = Some r -> Int64.in_range (startByte f) ->
  (forall offset whence,
     whence <> 0 -> whence <> 1 -> whence <> 2 ->
     Seek f offset whence = ((startByte f, Some errWhence), f))
  /\ (forall offset,
        Int64.in_range (offset - startByte f) -> offset < startByte f ->
        Seek f offset 0 = ((startByte f, Some errNegative), f)).
Proof.
  intros Hrc Hsb.
  assert (Hzero : Int64.add 0 (startByte f) = startByte f)
    by (apply wrap_in_range; exact Hsb).
  split.
  - intros offset whence H0 H1 H2. unfold Seek, bytesReader_Seek. rewrite Hrc.
    apply Z.eqb_neq in H0, H1, H2. rewrite H2, H0, H1. cbv iota.
    rewrite Hzero, (set_rc_id f r Hrc). reflexivity.
  - intros offset Hrel Hlt. unfold Seek, bytesReader_Seek. rewrite Hrc.
    change (0 =? 2) with false. change (0 =? 0) with true. cbv iota.
    assert (Hsub : Int64.sub offset (startByte f) = offset - startByte f)
      by (apply wrap_in_range; exact Hrel).
    rewrite Hsub. destruct (Z.ltb_spec (offset - startByte f) 0); [| lia].
    rewrite Hzero, (set_rc_id f r Hrc). reflexivity.
Qed.

(** ** Reading from the stream *)

Lemma substring_length (a n : nat) (t : string) :
  String.length (substring a n t) = Nat.min n (String.length t - a).
Proof.
  revert a n. induction t as [| c t IH]; intros a n.
  - destruct a, n; cbn; try reflexivity; rewrite ?Nat.min_0_r; reflexivity.
  - destruct a as [| a]; destruct n as [| n]; cbn [substring String.length].
    + reflexivity.
    + rewrite IH. rewrite Nat.sub_0_r. cbn. reflexivity.
    + rewrite IH. reflexivity.
    + rewrite IH. reflexivity.
Qed.

Lemma Read_within (f : explicitFetchFile) (r : bytesReader) (n : nat)
  (w : World) :
  rc f = Some r -> 0 <= i r <= Int64.max_signed ->
  Int64.in_range (i r + startByte f) ->
  Int64.in_range (i r + startByte f + Z.of_nat n) ->
  isFetched f (i r + startByte f) (i r + startByte f + Z.of_nat n) = true ->
  Read f n w = (rc_Read f n, w).
Proof.
  intros Hrc Hi Ho He Hin. unfold Read.
  rewrite (Seek_current f r Hrc Hi).
  assert (Hofs : Int64.add (i r) (startByte f) = i r + startByte f)
    by (apply wrap_in_range; exact Ho).
  rewrite Hofs.
  assert (Hend : Int64.add (i r + startByte f) (Z.of_nat n)
                 = i r + startByte f + Z.of_nat n)
    by (apply wrap_in_range; exact He).
  rewrite Hend, Hin. reflexivity.
Qed.

(** X5. A read within the window, with bytes left in the stream,
    returns the bytes of the stream from its position on, as many as the
    buffer holds or as are left, with no error and with nothing sent;
    and the current offset afterwards is the old one plus the bytes
    returned. *)
Theorem Read_advances (f : explicitFetchFile) (r : bytesReader) (n : nat)
  (w : World) :
  rc f = Some r ->
  0 <= i r -> i r < len (s r) -> len (s r) <= Int64.max_signed ->
  let o := i r + startByte f in
  Int64.in_range o -> Int64.in_range (o + Z.of_nat n) ->
  isFetched f o (o + Z.of_nat n) = true ->
  let data := substring (Z.to_nat (i r)) n (s r) in
  exists f',
    Read f n w = ((Returned data None, f'), w)
    /\ len data = Z.min (Z.of_nat n) (len (s r) - i r)
    /\ Seek f' 0 1 = ((o + len data, None), f').
Proof.
  intros Hrc Hi0 Hlt Hmax o Ho He Hin data.
  assert (Hlen : len data = Z.min (Z.of_nat n) (len (s r) - i r)).
  { unfold len, data in *. rewrite substring_length. lia. }
  assert (Hpos : Int64.add (i r) (len data) = i r + len data).
  { apply wrap_in_range.
    unfold Int64.in_range, Int64.min_signed, Int64.max_signed in *. lia. }
  exists (set_rc f (Some {| s := s r; i := i r + len data |})).
  split; [| split; [exact Hlen |]].
  - rewrite (Read_within f r n w Hrc ltac:(lia) Ho He Hin).
    unfold rc_Read, bytesReader_Read. rewrite Hrc.
    destruct (Z.leb_spec (len (s r)) (i r)); [lia |].
    fold data. rewrite Hpos. reflexivity.
  - assert (Hi : 0 <= i {| s := s r; i := i r + len data |}
                 <= Int64.max_signed) by (cbn [i]; lia).
    rewrite (Seek_current
               (set_rc f (Some {| s := s r; i := i r + len data |}))
               {| s := s r; i := i r + len data |} eq_refl Hi).
    cbn [i startByte set_rc].
    assert (Hadd : Int64.add (i r + len data) (startByte f) = o + len data).
    { unfold Int64.add.
      replace (i r + len data + startByte f) with (o + len data)
        by (unfold o; ring).
      apply wrap_in_range.
      unfold Int64.in_range, Int64.min_signed, Int64.max_signed in *. lia. }
    rewrite Hadd. reflexivity.
Qed.

(** X6. A read within the window when the stream is at or past its
    last byte, as happens when the object is shorter than the window
    asked for, returns no bytes and [io.EOF]; the reader stays as it is
    and nothing is sent: the reader does not fetch again. *)
Theorem Read_at_end (f : explicitFetchFile) (r : bytesReader) (n : nat)
  (w : World) :
  rc f = Some r ->
  len (s r) <= i r -> i r <= Int64.max_signed ->
  let o := i r + startByte f in
  Int64.in_range o -> Int64.in_range (o + Z.of_nat n) ->
  isFetched f o (o + Z.of_nat n) = true ->
  Read f n w = ((Returned "" (Some EOF), f), w).
Proof.
  intros Hrc Hge Hmax o Ho He Hin.
  assert (Hi : 0 <= i r <= Int64.max_signed) by (unfold len in Hge; lia).
  rewrite (Read_within f r n w Hrc Hi Ho He Hin).
  unfold rc_Read, bytesReader_Read. rewrite Hrc.
  destruct (Z.leb_spec (len (s r)) (i r)); [| lia].
  rewrite (set_rc_id f r Hrc). reflexivity.
Qed.

(** X7. With autofetch off, [Read] never touches the world, whatever
    the state of the reader; and a read of a span outside the window
    fails with the range-not-fetched usage error, which tells the span,
    the window and the offset, and leaves the reader as it is. *)
Theorem Read_without_autofetch (f : explicitFetchFile) (n : nat) (w : World) :
  autofetch f = false ->
  snd (Read f n w) = w
  /\ (forall r : bytesReader,
        rc f = Some r -> 0 <= i r <= Int64.max_signed ->
        let o := Int64.add (i r) (startByte f) in
        let e := Int64.add o (Z.of_nat n) in
        isFetched f o e = false ->
        Read f n w
        = ((Returned "" (Some (errNotFetched o e (startByte f) (endByte f) o)),
            f), w)
        /\ is_usage (errNotFetched o e (startByte f) (endByte f) o) = true).
Proof.
  intros Hauto. split.
  - unfold Read, Seek. destruct (rc f) as [r |] eqn:Hrc; [| reflexivity].
    change (1 =? 2) with false. cbv iota.
    destruct (bytesReader_Seek r _ 1) as [[k err] r'].
    destruct err as [e |]; [reflexivity |].
    destruct (isFetched _ _ _); cbn [negb]; [reflexivity |].
    cbn [autofetch set_rc]. rewrite Hauto. reflexivity.
  - intros r Hrc Hi o e Hout. split; [| reflexivity].
    unfold Read. rewrite (Seek_current f r Hrc Hi). fold o. fold e.
    rewrite Hout, Hauto. reflexivity.
Qed.

(** ** Fetch, again *)

(** X8. After a fetch of a span that was not in the window succeeds,
    the stream stands at the first byte of what came back, and a read
    of [n] bytes, [n] no more than the span, returns the first [n] bytes
    that came back (all of them if there are fewer, [io.EOF] if there
    are none) and sends nothing more. *)
Theorem Fetch_then_Read_prefix (f f' : explicitFetchFile) (start end_ : Z)
  (n : nat) (w w' : World) :
  isFetched f start end_ = false ->
  Fetch f start end_ w = ((None, f'), w') ->
  Int64.in_range start -> Int64.in_range end_ ->
  start + Z.of_nat n <= end_ ->
  exists b,
    rc f' = Some {| s := b; i := 0 |}
    /\ snd (Read f' n w') = w'
    /\ fst (fst (Read f' n w'))
       = if len b <=? 0 then Returned "" (Some EOF)
         else Returned (substring 0 n b) None.
Proof.
  intros Hout Hfetch Hs He Hn.
  destruct (Fetch_spec f start end_ w Hout)
    as (err & f1 & tl & Hrun & _ & _ & _ & _ & Hres).
  rewrite Hrun in Hfetch. injection Hfetch as -> -> _.
  destruct Hres as (rd & Hrc & Hi & Hsb & Heb).
  destruct rd as [b pos]. cbn in Hi. subst pos.
  exists b. split; [exact Hrc |].
  assert (Hpos : 0 <= i {| s := b; i := 0 |} <= Int64.max_signed)
    by (cbn; split; discriminate).
  assert (Hread : Read f' n w' = (rc_Read f' n, w')).
  { apply (Read_within f' _ n w' Hrc Hpos); cbn [i]; rewrite Hsb;
      rewrite ?Z.add_0_l.
    - exact Hs.
    - unfold Int64.in_range in *. lia.
    - apply isFetched_true_iff. rewrite Hrc, Hsb, Heb.
      repeat split; try lia. discriminate. }
  rewrite Hread. split; [reflexivity |].
  unfold rc_Read, bytesReader_Read. rewrite Hrc. cbn [s i fst].
  destruct (len b <=? 0); reflexivity.
Qed.

(** X9. Once [Fetch(start, end)] has succeeded, a fetch of any span
    within [start, end] is answered from the window: it succeeds, sends
    nothing and leaves the reader as it is. *)
Theorem Fetch_idempotent (f f' : explicitFetchFile) (start end_ : Z)
  (w w' : World) :
  start <= end_ ->
  Fetch f start end_ w = ((None, f'), w') ->
  forall a b w2,
    start <= a -> a <= b -> b <= end_ ->
    Fetch f' a b w2 = ((None, f'), w2).
Proof.
  intros Hle Hfetch a b w2 Ha Hab Hb. apply Fetch_noop.
  apply isFetched_true_iff.
  destruct (isFetched f start end_) eqn:Hin.
  - rewrite (Fetch_noop f start end_ w Hin) in Hfetch.
    injection Hfetch as <- _.
    apply isFetched_true_iff in Hin. destruct Hin as (Hrc & _ & Hlo & Hhi).
    repeat split; try lia. exact Hrc.
  - destruct (Fetch_spec f start end_ w Hin)
      as (err & f1 & tl & Hrun & _ & _ & _ & _ & Hres).
    rewrite Hrun in Hfetch. injection Hfetch as -> -> _.
    destruct Hres as (rd & Hrc & _ & Hsb & Heb). rewrite Hrc, Hsb, Heb.
    repeat split; try lia. discriminate.
Qed.

(** X10. A fetch whose start is after its end is never answered from
    the window: it always sends its request; and the window it sets on
    success holds no span at all, so that every fetch after it goes to
    the network too. *)
Theorem Fetch_inverted_span (f : explicitFetchFile) (start end_ : Z)
  (w : World) :
  end_ < start ->
  exists err f' w',
    Fetch f start end_ w = ((err, f'), w')
    /\ network w'
       = (network w ++ [EvRoundTrip (fetch_request f start end_)])%list
    /\ (err = None -> forall a b, isFetched f' a b = false).
Proof.
  intros Hinv.
  assert (Hout : isFetched f start end_ = false).
  { destruct (isFetched f start end_) eqn:H; [| reflexivity].
    apply isFetched_true_iff in H. lia. }
  destruct (Fetch_spec f start end_ w Hout)
    as (err & f' & tl & Hrun & Hnet & _ & _ & _ & Hres).
  exists err, f', (w ++ released f
                     ++ EvRoundTrip (fetch_request f start end_) :: tl)%list.
  split; [exact Hrun |]. split.
  - rewrite !network_app. cbn [network List.filter is_network].
    fold (network tl). rewrite Hnet.
    unfold released. destruct (rc f); reflexivity.
  - intros ->. destruct Hres as (rd & _ & _ & Hsb & Heb). intros a b.
    destruct (isFetched f' a b) eqn:H; [| reflexivity].
    apply isFetched_true_iff in H. lia.
Qed.

(** ** What every run of calls keeps *)

Lemma kept_Seek (f : explicitFetchFile) (offset whence : Z) :
  let g := snd (Seek f offset whence) in
  name g = name f /\ fs g = fs f /\ autofetch g = autofetch f.
Proof.
  unfold Seek. destruct (rc f) as [r |]; [| repeat split].
  destruct (whence =? 2); [repeat split |].
  destruct (bytesReader_Seek r _ whence) as [[k err] r']. repeat split.
Qed.

Lemma kept_rc_Read (f : explicitFetchFile) (n : nat) :
  let g := snd (rc_Read f n) in
  name g = name f /\ fs g = fs f /\ autofetch g = autofetch f.
Proof.
  unfold rc_Read. destruct (rc f) as [r |]; [| repeat split].
  destruct (bytesReader_Read r n) as [[data err] r']. repeat split.
Qed.

Lemma kept_Fetch (f : explicitFetchFile) (start end_ : Z) (w : World) :
  let g := snd (fst (Fetch f start end_ w)) in
  name g = name f /\ fs g = fs f /\ autofetch g = autofetch f.
Proof.
  destruct (isFetched f start end_) eqn:Hin.
  - rewrite (Fetch_noop f start end_ w Hin). repeat split.
  - destruct (Fetch_spec f start end_ w Hin)
      as (err & f' & tl & Hrun & _ & Hn & Hf & Ha & _).
    rewrite Hrun. cbn. auto.
Qed.

Lemma kept_Close (f : explicitFetchFile) (w : World) :
  let g := snd (fst (Close f w)) in
  name g = name f /\ fs g = fs f /\ autofetch g = autofetch f.
Proof. unfold Close. destruct (rc f); repeat split. Qed.

Lemma kept_Read (f : explicitFetchFile) (n : nat) (w : World) :
  let g := snd (fst (Read f n w)) in
  name g = name f /\ fs g = fs f /\ autofetch g = autofetch f.
Proof.
  cbv zeta. unfold Read.
  pose proof (kept_Seek f 0 1) as Hseek. cbv zeta in Hseek.
  destruct (Seek f 0 1) as [[ofs err] f1]. cbn [snd] in Hseek.
  destruct Hseek as (Hn & Hf & Ha).
  destruct err as [e |]; [cbn; auto |].
  assert (Hread : forall g, name g = name f /\ fs g = fs f
                            /\ autofetch g = autofetch f ->
            name (snd (rc_Read g n)) = name f
            /\ fs (snd (rc_Read g n)) = fs f
            /\ autofetch (snd (rc_Read g n)) = autofetch f).
  { intros g (H1 & H2 & H3). destruct (kept_rc_Read g n) as (K1 & K2 & K3).
    rewrite K1, K2, K3. auto. }
  destruct (isFetched f1 ofs _); cbn [negb]; [apply Hread; auto |].
  destruct (autofetch f1) eqn:Haf; cbn [negb];
    [| cbn; repeat split; congruence].
  io. set (fe := Int64.add _ (Int64.mul _ 4)).
  pose proof (kept_Fetch f1 ofs fe w) as Hfetch. cbv zeta in Hfetch.
  destruct (Fetch f1 ofs fe w) as [[err f2] w']. cbn [fst snd] in Hfetch.
  destruct Hfetch as (F1 & F2 & F3).
  assert (K : name f2 = name f /\ fs f2 = fs f /\ autofetch f2 = autofetch f)
    by (repeat split; congruence).
  destruct err as [e |]; [cbn; exact K |]. apply Hread; exact K.
Qed.

Lemma step_same_reader (f : explicitFetchFile) (o : Op) (w : World) :
  window_ok f -> same_reader f (fst (step f o w)).
Proof.
  intros Hok. unfold same_reader. destruct o as [n | off wh | a b |];
    cbn [step]; io.
  - pose proof (kept_Read f n w) as K. pose proof (window_ok_Read f n w Hok) as W.
    destruct (Read f n w) as [[res g] w']. cbn in *. tauto.
  - pose proof (kept_Seek f off wh) as K.
    pose proof (window_ok_Seek f off wh Hok) as W. cbn in *. tauto.
  - pose proof (kept_Fetch f a b w) as K.
    pose proof (window_ok_Fetch f a b w Hok) as W.
    destruct (Fetch f a b w) as [[res g] w']. cbn in *. tauto.
  - pose proof (kept_Close f w) as K. pose proof (window_ok_Close f w Hok) as W.
    destruct (Close f w) as [[res g] w']. cbn in *. tauto.
Qed.

Lemma run_same_reader (ops : list Op) :
  forall (f : explicitFetchFile) (w : World),
    window_ok f -> same_reader f (fst (run f ops w)).
Proof.
  induction ops as [| o ops IH]; intros f w Hok.
  - cbn. unfold same_reader. auto.
  - cbn [run]. io.
    pose proof (step_same_reader f o w Hok) as Hstep.
    destruct (step f o w) as [g w1]. cbn [fst] in Hstep.
    destruct Hstep as (H1 & H2 & H3 & H4).
    destruct (IH g w1 H4) as (K1 & K2 & K3 & K4).
    unfold same_reader. rewrite K1, K2, K3. auto.
Qed.

(** X11. Whatever calls of [Read], [Seek], [Fetch] and [Close] are made
    on the reader [OpenFetcher] returns, in whatever order and whatever
    the backend answers, the reader stays on the same object of the same
    file system with autofetch on, and whenever it has no stream its
    window is [0, 0). *)
Theorem reader_invariant (fs0 : S3FS) (nm : string) (ops : list Op)
  (w w1 : World) :
  exists f0,
    OpenFetcher fs0 nm w = ((Some f0, None), w)
    /\ let g := fst (run f0 ops w1) in
       name g = nm /\ fs g = fs0 /\ autofetch g = true
       /\ (rc g = None -> startByte g = 0 /\ endByte g = 0).
Proof.
  eexists. split; [reflexivity |]. cbv zeta.
  match goal with
  | |- context [run ?f0 ops w1] =>
      assert (Hok : window_ok f0) by (intros _; split; reflexivity);
      destruct (run_same_reader ops f0 w1 Hok) as (H1 & H2 & H3 & H4)
  end.
  cbn in H1, H2, H3. auto.
Qed.

(** * Further properties of the adapter *)

(** ** Transports *)

Lemma plain_Client_Do (fs0 : S3FS) (req : Request) (w : World) :
  plain_config fs0 ->
  Client_Do (client_of (config fs0)) req w
  = (match base_responder fs0 w req with
     | inl e => inl e
     | inr a => inr (response_of a)
     end, (w ++ [EvRoundTrip req])%list).
Proof.
  unfold plain_config, base_responder, configured, Client_Do, client_of.
  destruct (Client (config fs0)) as [cl |]; [| reflexivity].
  destruct (Transport cl) as [[r | inner rv] |]; intros H;
    try reflexivity. destruct H.
Qed.

(** X12. Whatever a [rangeTransport] wraps: an error from inside comes
    out as it is; an answer of 206 from inside comes out with the status
    200 and every other answer with the status it has, the length, the
    header and the body untouched, so that the status that comes out is
    never 206; and exactly one request goes on the wire, with the method
    and target of the caller's request and, over a plain or nil inner
    transport, the range header set to [rangeVal]. *)
Theorem rangeTransport_never_partial (inner : option Transport_t)
  (rangeVal : string) (req : Request) (w : World) :
  let req' := {| Method := Method req; Target := Target req;
                 Range := Some rangeVal |} in
  let inside := match inner with
                | Some transport => RoundTrip transport req' w
                | None => send DefaultTransport req' w
                end in
  (forall e w0, inside = (inl e, w0) ->
     RoundTrip (rangeTransport inner rangeVal) req w = (inl e, w0))
  /\ (forall r0 w0, inside = (inr r0, w0) ->
        exists resp,
          RoundTrip (rangeTransport inner rangeVal) req w = (inr resp, w0)
          /\ StatusCode resp
             = (if StatusCode r0 =? StatusPartialContent then StatusOK
                else StatusCode r0)
          /\ StatusCode resp <> StatusPartialContent
          /\ ContentLength resp = ContentLength r0
          /\ last_modified resp = last_modified r0
          /\ RespBody resp = RespBody r0)
  /\ (exists sent,
        snd (RoundTrip (rangeTransport inner rangeVal) req w)
        = (w ++ [EvRoundTrip sent])%list
        /\ Method sent = Method req /\ Target sent = Target req
        /\ (match inner with Some (rangeTransport _ _) => False | _ => True end ->
            Range sent = Some rangeVal)).
Proof.
  intros req' inside.
  assert (Hrun : RoundTrip (rangeTransport inner rangeVal) req w
                 = (match fst inside with
                    | inr resp =>
                        if StatusCode resp =? StatusPartialContent
                        then inr {| StatusCode := StatusOK;
                                    ContentLength := ContentLength resp;
                                    last_modified := last_modified resp;
                                    RespBody := RespBody resp |}
                        else inr resp
                    | inl e => inl e
                    end, snd inside)).
  { subst inside. destruct inner as [transport |]; cbn [RoundTrip]; io;
      fold req'.
    - destruct (RoundTrip transport req' w) as [res w0]. reflexivity.
    - destruct (send DefaultTransport req' w) as [res w0]. reflexivity. }
  split; [| split].
  - intros e w0 Hin. rewrite Hrun, Hin. reflexivity.
  - intros r0 w0 Hin. rewrite Hrun, Hin. cbn [fst snd].
    destruct (StatusCode r0 =? StatusPartialContent) eqn:Hst.
    + eexists. split; [reflexivity |]. cbn. repeat split. discriminate.
    + exists r0. split; [reflexivity |]. repeat split.
      apply Z.eqb_neq; exact Hst.
  - destruct (RoundTrip_spec (rangeTransport inner rangeVal) req w)
      as (res & Hspec & _).
    eexists. rewrite Hspec. split; [reflexivity |].
    destruct (wire_t_target (rangeTransport inner rangeVal) req) as [Hm Ht].
    split; [exact Hm |]. split; [exact Ht |].
    destruct inner as [[r | i0 rv0] |]; cbn; intros H;
      [reflexivity | destruct H | reflexivity].
Qed.

(** ** Opening an object *)

Lemma ranged_Client_Do (fs0 : S3FS) (rng : string) (req : Request) (w : World) :
  plain_config fs0 ->
  let req' := {| Method := Method req; Target := Target req;
                 Range := Some rng |} in
  Client_Do {| Transport := Some (rangeTransport (configured fs0) rng) |} req w
  = (match base_responder fs0 w req' with
     | inl e => inl e
     | inr a =>
         if reply_status a =? StatusPartialContent
         then inr {| StatusCode := StatusOK;
                     ContentLength := reply_length a;
                     last_modified := reply_last_modified a;
                     RespBody := {| src := reply_body a; closed := false |} |}
         else inr (response_of a)
     end, (w ++ [EvRoundTrip req'])%list).
Proof.
  intros H req'. unfold plain_config, base_responder, Client_Do in *.
  cbn [Transport RoundTrip].
  destruct (configured fs0) as [[r | inner rv] |];
    try (destruct H); cbn [RoundTrip]; io; unfold send; fold req'.
  - destruct (r w req') as [e | a]; [reflexivity |]. cbn.
    destruct (reply_status a =? StatusPartialContent); reflexivity.
  - destruct (DefaultTransport w req') as [e | a]; [reflexivity |]. cbn.
    destruct (reply_status a =? StatusPartialContent); reflexivity.
Qed.

(** X13. A ranged open, as [Fetch] makes it, takes an answer of 206 or
    of 200 alike for success: the body is read to its end and closed and
    the stream holds its bytes, at position 0. Any other status is an
    error that holds the status and the body, inside a [PathError]. *)
Theorem ranged_open_partial_content (fs0 : S3FS) (nm rng : string)
  (w : World) (a : Reply) :
  rng <> "" -> plain_config fs0 ->
  let req := {| Method := GET; Target := S3FS_url fs0 nm; Range := Some rng |} in
  let b := reply_body a in
  base_responder fs0 w req = inr a ->
  read_err b = None ->
  (reply_status a = StatusPartialContent \/ reply_status a = StatusOK ->
   S3FS_open fs0 nm rng w
   = (inr {| s := content b; i := 0 |},
      (w ++ [EvRoundTrip req; EvRead b; EvClose b])%list))
  /\ (reply_status a <> StatusPartialContent -> reply_status a <> StatusOK ->
      S3FS_open fs0 nm rng w
      = (inl (PathError "open" (S3FS_url fs0 nm)
                (s3utilError (reply_status a) (content b))),
         (w ++ [EvRoundTrip req; EvRead b; EvClose b])%list)).
Proof.
  intros Hrng Hplain req b Hans Hread.
  destruct rng as [| c rng']; [congruence |].
  assert (Hopen : S3FS_open fs0 nm (String c rng') w
                  = (r <- s3util_Open (S3FS_url fs0 nm)
                            {| Client := Some {| Transport :=
                                 Some (rangeTransport (configured fs0)
                                         (String c rng')) |} |} ;;
                     match r with
                     | inl err => ret (inl (PathError "open" (S3FS_url fs0 nm) err))
                     | inr rdr =>
                         '(data, err) <- ReadAll rdr ;;
                         match err with
                         | Some e => ret (inl e)
                         | None =>
                             '(_, _) <- Body_Close rdr ;;
                             ret (inr {| s := data; i := 0 |})
                         end
                     end) w) by reflexivity.
  rewrite Hopen. unfold s3util_Open, client_of. cbn [Client]. io.
  rewrite (ranged_Client_Do fs0 (String c rng')
             {| Method := GET; Target := S3FS_url fs0 nm; Range := None |}
             w Hplain).
  cbn [Method Target]. fold req. rewrite Hans.
  unfold s3util_newRespError, ReadAll, Body_Close, response_of. io.
  split.
  - intros [H | H]; rewrite H;
      [rewrite Z.eqb_refl
      | change (StatusOK =? StatusPartialContent) with false];
      crunch; rewrite ?H, Z.eqb_refl; crunch; fold b; rewrite Hread;
      rewrite <- !List.app_assoc; reflexivity.
  - intros H1 H2. apply Z.eqb_neq in H1, H2. rewrite H1. crunch. rewrite H2.
    crunch. rewrite <- !List.app_assoc. reflexivity.
Qed.

(** X14. [Open] sends one GET, with no range header, and then: a
    transport error or a status other than 200 (206 included) comes back
    inside a [PathError] for [open], the status error holding the status
    and the body; on 200 the whole body is read and the stream holds it
    at position 0; and when reading the body fails, the read error comes
    back bare and the body is left unclosed. *)
Theorem Open_outcomes (fs0 : S3FS) (nm : string) (w : World) :
  plain_config fs0 ->
  let url := S3FS_url fs0 nm in
  let req := {| Method := GET; Target := url; Range := None |} in
  match base_responder fs0 w req with
  | inl e =>
      Open fs0 nm w = (inl (PathError "open" url e), (w ++ [EvRoundTrip req])%list)
  | inr a =>
      let b := reply_body a in
      if reply_status a =? StatusOK then
        match read_err b with
        | Some e =>
            Open fs0 nm w = (inl e, (w ++ [EvRoundTrip req; EvRead b])%list)
        | None =>
            Open fs0 nm w
            = (inr {| s := content b; i := 0 |},
               (w ++ [EvRoundTrip req; EvRead b; EvClose b])%list)
        end
      else
        Open fs0 nm w
        = (inl (PathError "open" url (s3utilError (reply_status a) (content b))),
           (w ++ [EvRoundTrip req; EvRead b; EvClose b])%list)
  end.
Proof.
  intros Hplain url req.
  unfold Open, S3FS_open, s3util_Open. io. cbv iota.
  fold url. fold req. rewrite (plain_Client_Do fs0 req w Hplain).
  destruct (base_responder fs0 w req) as [e | a]; [reflexivity |].
  unfold s3util_newRespError, ReadAll, Body_Close, response_of. io. crunch.
  destruct (reply_status a =? StatusOK); crunch.
  - destruct (read_err (reply_body a)) as [e |];
      rewrite <- !List.app_assoc; reflexivity.
  - rewrite <- !List.app_assoc. reflexivity.
Qed.

(** ** Lstat, again *)

(** X15. Off the root, when the listing is answered with a status other
    than 200, [Lstat] fails with a [respError] that holds the status but
    an empty body, whatever the answer's body was (the body is closed
    before the error is made from it), inside a [PathError] for [lstat];
    the key itself is not probed. *)
Theorem Lstat_listing_refused (fs0 : S3FS) (nm0 : string) (w : World)
  (a : Reply) :
  normalize nm0 <> "." ->
  plain_config fs0 ->
  let req := {| Method := GET; Target := list_target fs0 (normalize nm0);
                Range := None |} in
  let b := reply_body a in
  NewRequest_err (list_target fs0 (normalize nm0)) = None ->
  base_responder fs0 w req = inr a ->
  reply_status a <> 200 ->
  Lstat fs0 nm0 w
  = (inl (PathError "lstat" (S3FS_url fs0 nm0) (respError (reply_status a) "")),
     (w ++ [EvRoundTrip req; EvClose b; EvRead b; EvClose b])%list).
Proof.
  intros Hnot Hplain req b Hreq Hans Hst.
  rewrite Lstat_of_lstat, lstat_steps.
  apply String.eqb_neq in Hnot. rewrite Hnot.
  unfold ListByPrefix. rewrite Hreq. io. fold req.
  rewrite (plain_Client_Do fs0 req w Hplain), Hans.
  apply Z.eqb_neq in Hst.
  unfold newRespError, ReadAll, Body_Close, response_of. io. crunch.
  rewrite Hst. crunch. rewrite <- !List.app_assoc. reflexivity.
Qed.

Lemma ListByPrefix_network (fs0 : S3FS) (nm : string) (w : World) :
  let sent := EvRoundTrip
                (on_wire (configured fs0)
                   {| Method := GET; Target := list_target fs0 nm;
                      Range := None |}) in
  network (snd (ListByPrefix fs0 nm w)) = network w
  \/ network (snd (ListByPrefix fs0 nm w)) = (network w ++ [sent])%list.
Proof.
  intros sent. unfold ListByPrefix.
  destruct (NewRequest_err _) as [e |]; [left; reflexivity |]. right. io.
  destruct (Client_Do_spec (client_of (config fs0))
              {| Method := GET; Target := list_target fs0 nm; Range := None |} w)
    as (res & Hdo & _).
  rewrite client_transport in Hdo. fold sent in Hdo. rewrite Hdo.
  destruct res as [e | resp].
  { cbn [snd]. rewrite network_app. reflexivity. }
  unfold newRespError, ReadAll, Body_Close. io.
  destruct (StatusCode resp =? 200); cbn [negb].
  - destruct (closed (RespBody resp)).
    + cbn [snd]. rewrite !network_app. cbn. rewrite List.app_nil_r. reflexivity.
    + destruct (read_err (src (RespBody resp))) as [e |].
      { cbn [snd]. rewrite !network_app. cbn. rewrite List.app_nil_r.
        reflexivity. }
      destruct (xml_Decode _) as [e | C].
      { cbn [snd]. rewrite !network_app. cbn. rewrite List.app_nil_r.
        reflexivity. }
      destruct (close_err (src (RespBody resp)));
        cbn [snd]; rewrite !network_app; cbn; rewrite !List.app_nil_r;
        reflexivity.
  - cbn [snd RespBody closed]. rewrite !network_app. cbn.
    rewrite !List.app_nil_r. reflexivity.
Qed.

Lemma probe_network (fs0 : S3FS) (nm : string) (w : World) :
  let sent := EvRoundTrip (on_wire (configured fs0) (probe_request fs0 nm)) in
  network (snd (probe fs0 nm w)) = network w
  \/ network (snd (probe fs0 nm w)) = (network w ++ [sent])%list.
Proof.
  intros sent. unfold probe.
  destruct (NewRequest_err _) as [e |]; [left; reflexivity |]. right. io.
  destruct (Client_Do_spec (client_of (config fs0)) (probe_request fs0 nm) w)
    as (res & Hdo & _).
  rewrite client_transport in Hdo. fold sent in Hdo. rewrite Hdo.
  destruct res as [e | resp].
  { cbn [snd]. rewrite network_app. reflexivity. }
  unfold newRespError, ReadAll, Body_Close. io.
  destruct (StatusCode resp =? StatusNotFound).
  { cbn [snd]. rewrite !network_app. cbn. rewrite List.app_nil_r. reflexivity. }
  destruct (StatusCode resp =? 200); cbn [negb].
  - cbn [snd]. rewrite !network_app. cbn. rewrite !List.app_nil_r.
    reflexivity.
  - destruct (closed (RespBody resp)); cbn [snd];
      rewrite !network_app; cbn; rewrite !List.app_nil_r; reflexivity.
Qed.

(** X16. [Lstat] only asks: whatever the path and whatever the client
    answers, it calls the HTTP client not at all, or once with the
    listing GET, or twice, with the listing GET and then the HEAD of the
    key, and never with anything else. (What the client itself sends
    while it serves one call, such as the requests of a redirect, is not
    counted.) *)
Theorem Lstat_sends_at_most_two (fs0 : S3FS) (nm0 : string) (w : World) :
  let listing :=
    EvRoundTrip (on_wire (configured fs0)
                   {| Method := GET; Target := list_target fs0 (normalize nm0);
                      Range := None |}) in
  let head :=
    EvRoundTrip (on_wire (configured fs0) (probe_request fs0 (normalize nm0))) in
  let sent := network (snd (Lstat fs0 nm0 w)) in
  sent = network w
  \/ sent = (network w ++ [listing])%list
  \/ sent = (network w ++ [listing; head])%list.
Proof.
  intros listing head sent. subst sent.
  rewrite Lstat_of_lstat. cbn [snd]. rewrite lstat_steps.
  destruct (String.eqb (normalize nm0) "."); [left; reflexivity |].
  pose proof (ListByPrefix_network fs0 (normalize nm0) w) as Hlist.
  cbv zeta in Hlist. fold listing in Hlist.
  destruct (ListByPrefix fs0 (normalize nm0) w) as [[e | Contents] w1] eqn:Hrun;
    cbn [snd] in *.
  { destruct Hlist as [-> | ->]; auto. }
  assert (Hw1 : network w1 = (network w ++ [listing])%list).
  { destruct (ListByPrefix_ok _ _ _ _ _ Hrun) as (b & -> & _).
    rewrite network_app. reflexivity. }
  destruct (Nat.eqb (List.length Contents) 1).
  { cbn [snd]. auto. }
  pose proof (probe_network fs0 (normalize nm0) w1) as Hprobe.
  cbv zeta in Hprobe. fold head in Hprobe.
  destruct Hprobe as [-> | ->]; rewrite Hw1; [auto |].
  right; right. rewrite <- List.app_assoc. reflexivity.
Qed.

(** ** ReadDir *)

Lemma strip_seps_head (l : list ascii) :
  match strip_seps l with
  | [] => True
  | c :: _ => is_sep c = false
  end.
Proof.
  induction l as [| c t IH]; cbn; [exact I |].
  destruct (is_sep c) eqn:H; [exact IH | exact H].
Qed.

Lemma take_element_no_sep (l : list ascii) :
  List.existsb is_sep (take_element l) = false.
Proof.
  induction l as [| c t IH]; cbn; [reflexivity |].
  destruct (is_sep c) eqn:H; cbn; [reflexivity |]. rewrite H. exact IH.
Qed.

Lemma existsb_rev_false {A} (p : A -> bool) (l : list A) :
  List.existsb p l = false -> List.existsb p (List.rev l) = false.
Proof.
  induction l as [| a t IH]; cbn; [auto |].
  intros H. apply Bool.orb_false_iff in H. destruct H as [Ha Ht].
  rewrite List.existsb_app, (IH Ht). cbn. rewrite Ha. reflexivity.
Qed.

(** The last element of a path is never empty, and holds no slash unless
    it is the slash alone. *)
Lemma Base_shape (path : string) :
  pathpkg_Base path <> ""
  /\ (pathpkg_Base path = "/" \/ has_sep (pathpkg_Base path) = false).
Proof.
  unfold pathpkg_Base. destruct path as [| c0 t0]; [split; [discriminate | right; reflexivity] |].
  set (l := List.rev (list_ascii_of_string (String c0 t0))).
  pose proof (strip_seps_head l) as Hhead.
  destruct (strip_seps l) as [| c r] eqn:Hr;
    [split; [discriminate | left; reflexivity] |].
  split.
  - cbn [take_element]. rewrite Hhead. cbn [List.rev].
    intros H. apply (f_equal list_ascii_of_string) in H.
    rewrite list_ascii_of_string_of_list_ascii in H. cbn in H.
    destruct (List.rev (take_element r)); discriminate.
  - right. unfold has_sep. rewrite list_ascii_of_string_of_list_ascii.
    apply existsb_rev_false, take_element_no_sep.
Qed.

(** X17. When the listing succeeds, [ReadDir] sends that one listing
    and answers one entry for each entry listed, in the same order, with
    the same size, mode, time and system value, and for name the last
    element of the listed name: never empty, and without a slash unless
    it is the slash alone. When the listing fails, its error comes back
    as it is. *)
Theorem ReadDir_entries (fs0 : S3FS) (path : string) (w : World) :
  NewFile_err (S3FS_url fs0 path) = None ->
  let url := S3FS_url fs0 path in
  (forall fis, Readdir w url = inr fis ->
     exists out,
       ReadDir fs0 path w = (inr out, (w ++ [EvReaddir url])%list)
       /\ List.Forall2
            (fun fi fo =>
               fi_name fo = pathpkg_Base (fi_name fi)
               /\ fi_size fo = fi_size fi /\ fi_mode fo = fi_mode fi
               /\ fi_modTime fo = fi_modTime fi /\ fi_sys fo = fi_sys fi
               /\ fi_name fo <> ""
               /\ (fi_name fo = "/" \/ has_sep (fi_name fo) = false))
            fis out)
  /\ (forall e, Readdir w url = inl e ->
        ReadDir fs0 path w = (inl e, (w ++ [EvReaddir url])%list)).
Proof.
  intros Hnew url. split.
  - intros fis Hlist. eexists. split.
    + unfold ReadDir. rewrite Hnew. fold url. rewrite Hlist. reflexivity.
    + clear Hlist. induction fis as [| fi fis IH]; cbn [List.map];
        constructor; [| exact IH].
      cbn. destruct (Base_shape (fi_name fi)) as [H1 H2]. repeat split; auto.
  - intros e Hlist. unfold ReadDir. rewrite Hnew. fold url. rewrite Hlist.
    reflexivity.
Qed.

(** ** Autofetch, end to end *)

Lemma Read_outside (f : explicitFetchFile) (r : bytesReader) (n : nat)
  (w : World) :
  autofetch f = true -> rc f = Some r -> 0 <= i r <= Int64.max_signed ->
  let o := i r + startByte f in
  let fetchEnd := o + Z.of_nat n + 4 * Z.of_nat n in
  Int64.in_range o -> Int64.in_range fetchEnd ->
  isFetched f o (o + Z.of_nat n) = false ->
  isFetched f o fetchEnd = false
  /\ Read f n w
     = (let '((err, f'), w') := Fetch f o fetchEnd w in
        match err with
        | Some x => ((Returned "" (Some x), f'), w')
        | None => (rc_Read f' n, w')
        end).
Proof.
  intros Hauto Hrc Hi o fetchEnd Ho He Hspan.
  destruct (overfetch_end o (Z.of_nat n) ltac:(lia) Ho He) as [Hend Hfe].
  assert (Hofs : Int64.add (i r) (startByte f) = o)
    by (apply wrap_in_range; exact Ho).
  split.
  - destruct (isFetched f o fetchEnd) eqn:Hfar; [| reflexivity].
    apply isFetched_true_iff in Hfar. destruct Hfar as (Hs & _ & Hlo & Hhi).
    assert (Hin : isFetched f o (o + Z.of_nat n) = true).
    { apply isFetched_true_iff. subst fetchEnd. repeat split; auto; lia. }
    congruence.
  - unfold Read. rewrite (Seek_current f r Hrc Hi). rewrite Hofs, Hend.
    rewrite Hspan, Hauto. cbn [negb]. cbv zeta. rewrite Hfe.
    io. fold fetchEnd. destruct (Fetch f o fetchEnd w) as [[err f'] w'].
    destruct err; reflexivity.
Qed.

(** X20. When a read outside the window sets off a fetch and the fetch
    fails, the read returns no bytes and the error of the fetch, and the
    reader has lost the stream and window it had: every later read
    fails until a fetch succeeds, even for bytes that were in the old
    window. *)
Theorem Read_failed_autofetch (f f' : explicitFetchFile) (r : bytesReader)
  (n : nat) (w w' : World) (e : error) :
  autofetch f = true -> rc f = Some r -> 0 <= i r <= Int64.max_signed ->
  let o := i r + startByte f in
  let fetchEnd := o + Z.of_nat n + 4 * Z.of_nat n in
  Int64.in_range o -> Int64.in_range fetchEnd ->
  isFetched f o (o + Z.of_nat n) = false ->
  Fetch f o fetchEnd w = ((Some e, f'), w') ->
  Read f n w = ((Returned "" (Some e), f'), w')
  /\ rc f' = None /\ startByte f' = 0 /\ endByte f' = 0
  /\ (forall m w2, Read f' m w2 = ((Returned "" (Some errMustFetch), f'), w2)).
Proof.
  intros Hauto Hrc Hi o fetchEnd Ho He Hspan Hfetch.
  destruct (Read_outside f r n w Hauto Hrc Hi Ho He Hspan) as [Hfar Hread].
  fold o fetchEnd in Hread, Hfar. rewrite Hfetch in Hread.
  split; [exact Hread |].
  destruct (Fetch_spec f o fetchEnd w Hfar)
    as (err & f1 & tl & Hrun & _ & _ & _ & _ & Hres).
  rewrite Hrun in Hfetch. injection Hfetch as -> -> _.
  destruct Hres as (Hnone & Hsb & Heb). rewrite Hrc in Hsb, Heb.
  repeat split; auto. intros m w2. apply Read_without_stream; exact Hnone.
Qed.

(** X21. When a read outside the window sets off a fetch and the fetch
    succeeds, the read returns the first bytes of what the fetch brought
    back, as many as the buffer holds ([io.EOF] if nothing came back),
    the window is now the span fetched, and the stream has moved on by
    the bytes returned. *)
Theorem Read_autofetched_bytes (f f' : explicitFetchFile) (r : bytesReader)
  (n : nat) (w w' : World) :
  autofetch f = true -> rc f = Some r -> 0 <= i r <= Int64.max_signed ->
  let o := i r + startByte f in
  let fetchEnd := o + Z.of_nat n + 4 * Z.of_nat n in
  Int64.in_range o -> Int64.in_range fetchEnd ->
  isFetched f o (o + Z.of_nat n) = false ->
  Fetch f o fetchEnd w = ((None, f'), w') ->
  exists b,
    rc f' = Some {| s := b; i := 0 |}
    /\ startByte f' = o /\ endByte f' = fetchEnd
    /\ Read f n w
       = (if len b <=? 0
          then (Returned "" (Some EOF), f')
          else (Returned (substring 0 n b) None,
                set_rc f' (Some {| s := b;
                                   i := Int64.add 0 (len (substring 0 n b)) |})),
          w').
Proof.
  intros Hauto Hrc Hi o fetchEnd Ho He Hspan Hfetch.
  destruct (Read_outside f r n w Hauto Hrc Hi Ho He Hspan) as [Hfar Hread].
  fold o fetchEnd in Hread, Hfar. rewrite Hfetch in Hread.
  destruct (Fetch_spec f o fetchEnd w Hfar)
    as (err & f1 & tl & Hrun & _ & _ & _ & _ & Hres).
  rewrite Hrun in Hfetch. injection Hfetch as -> -> _.
  destruct Hres as (rd & Hrd & Hpos & Hsb & Heb).
  destruct rd as [b pos]. cbn in Hpos. subst pos.
  exists b. repeat split; auto.
  rewrite Hread. unfold rc_Read, bytesReader_Read. rewrite Hrd. cbn [s i].
  destruct (len b <=? 0); [| reflexivity].
  rewrite (set_rc_id f' _ Hrd). reflexivity.
Qed.

(** ** Where Lstat leaves the documented path *)

Lemma ListByPrefix_sent (fs0 : S3FS) (nm : string) (w : World) :
  NewRequest_err (list_target fs0 nm) = None ->
  exists tl,
    snd (ListByPrefix fs0 nm w)
    = (w ++ EvRoundTrip
              (on_wire (configured fs0)
                 {| Method := GET; Target := list_target fs0 nm;
                    Range := None |}) :: tl)%list.
Proof.
  intros Hreq. unfold ListByPrefix. rewrite Hreq. io.
  destruct (Client_Do_spec (client_of (config fs0))
              {| Method := GET; Target := list_target fs0 nm; Range := None |} w)
    as (res & Hdo & _).
  rewrite client_transport in Hdo. rewrite Hdo.
  destruct res as [e | resp]; [exists []; reflexivity |].
  unfold newRespError, ReadAll, Body_Close. io.
  destruct (StatusCode resp =? 200); cbn [negb].
  - destruct (closed (RespBody resp)).
    + cbn [snd]. rewrite <- !List.app_assoc. eexists; reflexivity.
    + destruct (read_err (src (RespBody resp))) as [e |].
      { cbn [snd]. rewrite <- !List.app_assoc. eexists; reflexivity. }
      destruct (xml_Decode _) as [e | C].
      { cbn [snd]. rewrite <- !List.app_assoc. eexists; reflexivity. }
      destruct (close_err (src (RespBody resp)));
        cbn [snd]; rewrite <- !List.app_assoc; eexists; reflexivity.
  - cbn [snd RespBody closed]. rewrite <- !List.app_assoc.
    eexists; reflexivity.
Qed.

Lemma probe_extends (fs0 : S3FS) (nm : string) (w : World) :
  exists tl, snd (probe fs0 nm w) = (w ++ tl)%list.
Proof.
  unfold probe.
  destruct (NewRequest_err _) as [e |];
    [exists []; rewrite List.app_nil_r; reflexivity |]. io.
  destruct (Client_Do_spec (client_of (config fs0)) (probe_request fs0 nm) w)
    as (res & Hdo & _).
  rewrite Hdo. destruct res as [e | resp]; [eexists; reflexivity |].
  unfold newRespError, ReadAll, Body_Close. io.
  destruct (StatusCode resp =? StatusNotFound).
  { cbn [snd]. rewrite <- !List.app_assoc. eexists; reflexivity. }
  destruct (StatusCode resp =? 200); cbn [negb].
  - cbn [snd]. rewrite <- !List.app_assoc. eexists; reflexivity.
  - destruct (closed (RespBody resp)); cbn [snd];
      rewrite <- !List.app_assoc; eexists; reflexivity.
Qed.

(** C4, at the path [/]. The cleaned form of [/] is [/] itself, and
    without its leading slash it is the empty name, not the dot: so
    [Lstat] does not take the root branch. Whatever the backend, as soon
    as the listing request can be built it is sent, for the prefix [/],
    and what [Lstat] answers is what the backend makes of it. *)
Theorem Lstat_slash_asks_backend (fs0 : S3FS) (w : World) :
  NewRequest_err (list_target fs0 "") = None ->
  normalize "/" = ""
  /\ exists tl,
       snd (Lstat fs0 "/" w)
       = (w ++ EvRoundTrip
                 (on_wire (configured fs0)
                    {| Method := GET; Target := list_target fs0 "";
                       Range := None |}) :: tl)%list.
Proof.
  intros Hreq. split; [reflexivity |].
  rewrite Lstat_of_lstat. cbn [snd]. rewrite lstat_steps.
  change (normalize "/") with "". change (String.eqb "" ".") with false.
  cbv iota.
  destruct (ListByPrefix_sent fs0 "" w Hreq) as (tl & Hsent).
  destruct (ListByPrefix fs0 "" w) as [[e | Contents] w1]; cbn [snd] in Hsent.
  - exists tl. exact Hsent.
  - destruct (Nat.eqb (List.length Contents) 1); [exists tl; exact Hsent |].
    destruct (probe_extends fs0 "" w1) as (tl' & Hprobe).
    rewrite Hprobe, Hsent. rewrite <- List.app_assoc. cbn [List.app].
    eexists; reflexivity.
Qed.

(** C5, at a listing of two keys or more. Off the root, when the listing
    under [p/] comes back with more than one key, [lstat] does not answer
    a directory: it goes on to the HEAD of the key [p], and answers what
    that probe answers. *)
Theorem Lstat_many_keys_probes (fs0 : S3FS) (nm0 : string) (w w1 : World)
  (Contents : list string) :
  normalize nm0 <> "." ->
  ListByPrefix fs0 (normalize nm0) w = (inr Contents, w1) ->
  (2 <= List.length Contents)%nat ->
  Contents <> []
  /\ lstat fs0 nm0 w = probe fs0 (normalize nm0) w1
  /\ Lstat fs0 nm0 w
     = (match fst (probe fs0 (normalize nm0) w1) with
        | inl err => inl (PathError "lstat" (S3FS_url fs0 nm0) err)
        | inr fi => inr fi
        end, snd (probe fs0 (normalize nm0) w1)).
Proof.
  intros Hnot Hlist Hmany.
  assert (Hsteps : lstat fs0 nm0 w = probe fs0 (normalize nm0) w1).
  { rewrite lstat_steps. apply String.eqb_neq in Hnot. rewrite Hnot, Hlist.
    destruct (Nat.eqb_spec (List.length Contents) 1) as [H1 | _]; [lia |].
    reflexivity. }
  split; [| split].
  - destruct Contents; [cbn in Hmany; lia | discriminate].
  - exact Hsteps.
  - rewrite Lstat_of_lstat, Hsteps. reflexivity.
Qed.

End Facts.

(** * The package on the simulated bucket *)

Example Fetch_then_Read :
  Fetch (env := Sim.E1) (Sim.fresh "a/b.txt") 0 2 []
  = ((None, Sim.fetched_0_2),
     [EvRoundTrip {| Method := GET; Target := "https://s3.test/bucket/a/b.txt";
                     Range := Some "bytes=0-2" |};
      EvRead (Sim.body_of "hel"); EvClose (Sim.body_of "hel")])
  /\ fst (fst (Read (env := Sim.E1) Sim.fetched_0_2 2 [])) = Returned "he" None.
Proof. split; reflexivity. Qed.

(** On the path [/] the cleaned name without its leading slash is empty,
    not the dot, and [Lstat] goes to the backend. *)
Example Lstat_slash :
  normalize "/" = ""
  /\ network (snd (Lstat (env := Sim.E1) Sim.the_fs "/" []))
     = [EvRoundTrip {| Method := GET;
                       Target := "https://s3.test/bucket?prefix=/&max-keys=1";
                       Range := None |};
        EvRoundTrip {| Method := HEAD; Target := "https://s3.test/bucket";
                       Range := None |}].
Proof. split; reflexivity. Qed.

(** C3, at [Fetch(0, 2)] on a new reader of the object [hello]: the one
    request sent carries [bytes=0-2], whose two ends, both included, are
    0 and 2, so that three bytes come back for the window [0, 2). *)
Theorem Fetch_range_last_byte :
  let '(err, f, w) := Fetch (env := Sim.E1) (Sim.fresh "a/b.txt") 0 2 [] in
  err = None
  /\ (startByte f, endByte f) = (0, 2)
  /\ rc f = Some {| s := "hel"; i := 0 |}
  /\ network w
     = [EvRoundTrip {| Method := GET; Target := "https://s3.test/bucket/a/b.txt";
                       Range := Some "bytes=0-2" |}]
  /\ range_header 0 2 = "bytes=0-2"
  /\ Sim.parse_range (range_header 0 2) = Some (0%nat, 2%nat)
  /\ Sim.parse_range (range_header 0 2) <> Some (0%nat, 1%nat).
Proof. vm_compute. repeat split. discriminate. Qed.

(** C1 as stated fails on a new reader: autofetch is on and the span
    [0, 2) is not within the window, yet [Read] sends nothing and fails. *)
Lemma Read_fresh_no_fetch :
  let f := Sim.fresh "a/b.txt" in
  OpenFetcher Sim.the_fs "a/b.txt" [] = ((Some f, None), [])
  /\ autofetch f = true
  /\ isFetched f 0 2 = false
  /\ Read (env := Sim.E1) f 2 [] = ((Returned "" (Some errMustFetch), f), [])
  /\ ~ (exists r f' w',
          Read (env := Sim.E1) f 2 [] = ((r, f'), w')
          /\ List.length (network w') = 1%nat).
Proof.
  cbv zeta. repeat split.
  intros (r & f' & w' & Hread & Hlen).
  change (Read (env := Sim.E1) (Sim.fresh "a/b.txt") 2 [])
    with ((Returned "" (Some errMustFetch), Sim.fresh "a/b.txt"),
          @nil Event) in Hread.
  injection Hread as _ _ <-. discriminate Hlen.
Qed.

Lemma Read_autofetch_witness :
  isFetched Sim.fetched_0_2 0 5 = false
  /\ network (snd (Read (env := Sim.E1) Sim.fetched_0_2 5 []))
     = [EvRoundTrip {| Method := GET; Target := "https://s3.test/bucket/a/b.txt";
                       Range := Some "bytes=0-25" |}]
  /\ isFetched Sim.fetched_0_2 0 2 = true
  /\ Read (env := Sim.E1) Sim.fetched_0_2 2 []
     = (rc_Read Sim.fetched_0_2 2, []).
Proof.
  pose proof (Read_autofetch (env := Sim.E1) Sim.fetched_0_2 5 [] eq_refl)
    as [_ H5].
  specialize (H5 {| s := "hel"; i := 0 |} eq_refl).
  pose proof (Read_autofetch (env := Sim.E1) Sim.fetched_0_2 2 [] eq_refl)
    as [_ H2].
  specialize (H2 {| s := "hel"; i := 0 |} eq_refl).
  assert (Hi : 0 <= 0 <= Int64.max_signed) by (split; discriminate).
  assert (R0 : Int64.in_range 0) by (split; discriminate).
  assert (R25 : Int64.in_range 25) by (split; discriminate).
  assert (R10 : Int64.in_range 10) by (split; discriminate).
  destruct (H5 Hi R0 R25) as [Hout _].
  destruct (H2 Hi R0 R10) as [_ Hin].
  split; [reflexivity |]. split.
  - destruct (Hout eq_refl) as (err & f' & tl & _ & Hread & Hnet).
    rewrite Hread. exact Hnet.
  - split; [reflexivity | exact (Hin eq_refl)].
Defined.

Lemma Fetch_failure_witness :
  window_ok Sim.stale
  /\ (startByte Sim.stale, endByte Sim.stale) = (0, 2)
  /\ rc Sim.stale = Some {| s := "hel"; i := 0 |}
  /\ exists e f' w',
       Fetch (env := Sim.E1) Sim.stale 0 5 [] = ((Some e, f'), w')
       /\ e = PathError "open" "https://s3.test/bucket/nope"
                (s3utilError 404 "NoSuchKey")
       /\ (rc f' = None /\ startByte f' = 0 /\ endByte f' = 0)
       /\ (exists tl,
             w' = (EvStreamClose {| s := "hel"; i := 0 |}
                     :: EvRoundTrip
                          {| Method := GET;
                             Target := "https://s3.test/bucket/nope";
                             Range := Some "bytes=0-5" |} :: tl)%list)
       /\ (forall n w2,
             Read (env := Sim.E1) f' n w2
             = ((Returned "" (Some errMustFetch), f'), w2))
       /\ exists rs,
            Reads (env := Sim.E1) f' [1; 2; 5]%nat w'
            = ((rs, f'), w')
            /\ List.Forall failed rs.
Proof.
  assert (Hok : window_ok Sim.stale) by (intros H; discriminate H).
  split; [exact Hok |]. split; [reflexivity |]. split; [reflexivity |].
  exists (PathError "open" "https://s3.test/bucket/nope"
            (s3utilError 404 "NoSuchKey")),
    (Sim.fresh "nope"),
    [EvStreamClose {| s := "hel"; i := 0 |};
     EvRoundTrip {| Method := GET; Target := "https://s3.test/bucket/nope";
                    Range := Some "bytes=0-5" |};
     EvRead (Sim.body_of "NoSuchKey"); EvClose (Sim.body_of "NoSuchKey")].
  split; [reflexivity |]. split; [reflexivity |].
  destruct (Fetch_failure_empties (env := Sim.E1) Sim.stale (Sim.fresh "nope")
              0 5 []
              [EvStreamClose {| s := "hel"; i := 0 |};
               EvRoundTrip {| Method := GET;
                              Target := "https://s3.test/bucket/nope";
                              Range := Some "bytes=0-5" |};
               EvRead (Sim.body_of "NoSuchKey");
               EvClose (Sim.body_of "NoSuchKey")]
              (PathError "open" "https://s3.test/bucket/nope"
                 (s3utilError 404 "NoSuchKey"))
              Hok eq_refl) as (Hempty & (tl & Htl) & Hread & Hreads).
  split; [exact Hempty |]. split; [exists tl; exact Htl |].
  split; [exact Hread |].
  destruct (Hreads [1; 2; 5]%nat
              [EvStreamClose {| s := "hel"; i := 0 |};
               EvRoundTrip {| Method := GET;
                              Target := "https://s3.test/bucket/nope";
                              Range := Some "bytes=0-5" |};
               EvRead (Sim.body_of "NoSuchKey");
               EvClose (Sim.body_of "NoSuchKey")])
    as (rs & Hrun & Hall & _).
  exists rs. split; [exact Hrun | exact Hall].
Defined.

Lemma Lstat_root_witness :
  normalize "" = "."
  /\ Lstat (env := Sim.E1) Sim.the_fs "" [] = (inr (synthetic_dir "."), [])
  /\ normalize "a/.." = "."
  /\ Lstat (env := Sim.E1) Sim.the_fs "a/.." [] = (inr (synthetic_dir "."), []).
Proof.
  split; [reflexivity |].
  split; [exact (proj1 (Lstat_root (env := Sim.E1) Sim.the_fs "" [] eq_refl)) |].
  split; [reflexivity |].
  exact (proj1 (Lstat_root (env := Sim.E1) Sim.the_fs "a/.." [] eq_refl)).
Defined.

(** [store2] holds an object at [p] and one under [p/]: a directory. *)
Lemma Lstat_directory_first_witness :
  Sim.lookup "p" Sim.store2 = Some "file"
  /\ fst (Lstat (env := Sim.E2) Sim.the_fs "p" []) = inr (synthetic_dir "p")
  /\ network (snd (Lstat (env := Sim.E2) Sim.the_fs "p" []))
     = [EvRoundTrip {| Method := GET;
                       Target := "https://s3.test/bucket?prefix=p/&max-keys=1";
                       Range := None |}].
Proof.
  split; [reflexivity |].
  assert (Hnot : normalize "p" <> ".") by (vm_compute; discriminate).
  assert (Hne : ["p/x"] <> @nil string) by discriminate.
  destruct (Lstat_directory_first (env := Sim.E2) Sim.the_fs "p" []
              [EvRoundTrip {| Method := GET;
                              Target := "https://s3.test/bucket?prefix=p/&max-keys=1";
                              Range := None |};
               EvRead (Sim.body_of ("p/x" ++ String Sim.nl ""));
               EvClose (Sim.body_of ("p/x" ++ String Sim.nl ""))]
              ["p/x"] Hnot eq_refl Hne (le_n 1))
    as (HL & _ & _ & Hnet).
  rewrite HL. split; [reflexivity | exact Hnet].
Defined.

Lemma Lstat_probe_witness :
  fst (Lstat (env := Sim.E1) Sim.the_fs "a/b.txt" [])
  = inr {| fi_name := "a/b.txt"; fi_size := 5; fi_mode := 0;
           fi_modTime := TimeAt 1136214245; fi_sys := None |}
  /\ fst (Lstat (env := Sim.E1) Sim.the_fs "zz" [])
     = inl (PathError "lstat" "https://s3.test/bucket/zz" ErrNotExist).
Proof.
  assert (Ha : normalize "a/b.txt" <> ".") by (vm_compute; discriminate).
  assert (Hz : normalize "zz" <> ".") by (vm_compute; discriminate).
  split.
  - exact (proj1 (proj2 (proj2 (proj2 (proj2 (proj2
             (Lstat_probe (env := Sim.E1) Sim.the_fs "a/b.txt" [] _ _ _
                Ha eq_refl eq_refl eq_refl)))) eq_refl))).
  - exact (proj2 (proj1 (proj2 (proj2
             (Lstat_probe (env := Sim.E1) Sim.the_fs "zz" [] _ _ _
                Hz eq_refl eq_refl eq_refl))) eq_refl)).
Defined.

Lemma Seek_usage_errors_witness :
  Seek (Sim.fresh "a/b.txt") 7 0 = ((0, Some errMustFetch), Sim.fresh "a/b.txt")
  /\ exists e, Seek Sim.fetched_0_2 (-1) 2 = ((0, Some e), Sim.fetched_0_2)
               /\ is_usage e = true.
Proof.
  split.
  - exact (proj1 (proj1 (Seek_usage_errors (Sim.fresh "a/b.txt") 7 0) eq_refl)).
  - exact (proj2 (Seek_usage_errors Sim.fetched_0_2 (-1) 0)).
Defined.

(** C8 as stated fails: the error [Read] gives on a new reader, and the
    error [Remove] gives when the transport refuses the connection, are
    not inside a [PathError]. *)
Lemma errors_not_wrapped :
  (exists e, fst (fst (Read (env := Sim.E1) (Sim.fresh "a/b.txt") 2 []))
             = Returned "" (Some e)
             /\ is_PathError e = false)
  /\ (exists e, fst (Remove (env := Sim.E1) Sim.offline_fs "a/b.txt" []) = Some e
               /\ is_PathError e = false).
Proof.
  split.
  - exists errMustFetch. split; reflexivity.
  - exists (Foreign "connection refused"). split; reflexivity.
Qed.

Lemma adapter_errors_wrapped_witness :
  (exists e0,
     fst (Lstat (env := Sim.E1) Sim.offline_fs "a/b.txt" [])
     = inl (PathError "lstat" "https://s3.test/bucket/a/b.txt" e0))
  /\ Open (env := Sim.E1) Sim.offline_fs "a/b.txt" []
     = (inl (PathError "open" "https://s3.test/bucket/a/b.txt"
               (Foreign "connection refused")),
        [EvRoundTrip {| Method := GET; Target := "https://s3.test/bucket/a/b.txt";
                        Range := None |}]).
Proof.
  pose proof (adapter_errors_wrapped (env := Sim.E1) Sim.offline_fs "a/b.txt" [])
    as (HL & _ & _ & HO & _).
  split.
  - destruct (HL _ eq_refl) as (e0 & He0). exists e0.
    injection He0 as <-. reflexivity.
  - exact (HO _ _ eq_refl).
Defined.

(** C9 as stated fails: the server answers the delete with 204 and a
    body of four bytes; [Remove] succeeds having closed that body and read
    none of it. *)
Lemma Remove_does_not_drain :
  let b := Sim.body_of "gone" in
  let '(err, w) := Remove (env := Sim.E_note) Sim.the_fs "a/b.txt" [] in
  err = None
  /\ w = [EvRoundTrip {| Method := DELETE;
                         Target := "https://s3.test/bucket/a/b.txt";
                         Range := None |};
          EvClose b]
  /\ content b <> ""
  /\ ~ List.In (EvRead b) w.
Proof.
  vm_compute. repeat split; try discriminate.
  intros [H | [H | []]]; discriminate.
Qed.

(** * The further properties on the simulated bucket *)

Lemma Close_idempotent_witness :
  exists f1,
    Close Sim.fetched_0_2 [] = ((None, f1), [EvStreamClose {| s := "hel"; i := 0 |}])
    /\ (startByte f1, endByte f1) = (0, 0)
    /\ Close f1 [] = ((None, f1), []).
Proof.
  destruct (Close_idempotent Sim.fetched_0_2 [])
    as (f1 & Hrun & _ & _ & Hwin & Hagain & _).
  exists f1. split; [exact Hrun |].
  destruct (Hwin ltac:(discriminate)) as [-> ->].
  split; [reflexivity | apply Hagain].
Defined.

Lemma in_range_small (x : Z) : -100 <= x <= 100 -> Int64.in_range x.
Proof.
  unfold Int64.in_range, Int64.min_signed, Int64.max_signed. lia.
Defined.

Ltac small := apply in_range_small; cbn; lia.

Lemma Seek_absolute_round_trip_witness :
  fst (Seek Sim.fetched_0_2 1 0) = (1, None)
  /\ fst (Seek (snd (Seek Sim.fetched_0_2 1 0)) 0 1) = (1, None).
Proof.
  destruct (Seek_absolute_round_trip Sim.fetched_0_2 {| s := "hel"; i := 0 |} 1
              eq_refl ltac:(small)
              ltac:(small) ltac:(cbn; lia))
    as [H1 H2].
  rewrite H1. cbn [fst snd]. rewrite H2. split; reflexivity.
Defined.

Lemma Seek_absolute_then_relative_witness :
  Seek (snd (Seek Sim.fetched_0_2 1 0)) 1 1 = Seek Sim.fetched_0_2 2 0
  /\ fst (Seek Sim.fetched_0_2 2 0) = (2, None).
Proof.
  exact (Seek_absolute_then_relative Sim.fetched_0_2 {| s := "hel"; i := 0 |}
           1 1 eq_refl ltac:(small)
           ltac:(small) ltac:(cbn; lia)
           ltac:(small)
           ltac:(small) ltac:(cbn; lia)).
Defined.

Lemma Seek_rejected_witness :
  Seek Sim.fetched_0_2 0 3 = ((0, Some errWhence), Sim.fetched_0_2)
  /\ Seek Sim.fetched_0_2 (-1) 0 = ((0, Some errNegative), Sim.fetched_0_2).
Proof.
  destruct (Seek_rejected Sim.fetched_0_2 {| s := "hel"; i := 0 |} eq_refl
              ltac:(small)) as [Hw Hn].
  split.
  - exact (Hw 0 3 ltac:(discriminate) ltac:(discriminate) ltac:(discriminate)).
  - exact (Hn (-1) ltac:(small) ltac:(cbn; lia)).
Defined.

Lemma Read_advances_witness :
  exists f',
    Read (env := Sim.E1) Sim.fetched_0_2 2 [] = ((Returned "he" None, f'), [])
    /\ Seek f' 0 1 = ((2, None), f').
Proof.
  destruct (Read_advances (env := Sim.E1) Sim.fetched_0_2
              {| s := "hel"; i := 0 |} 2 [] eq_refl
              ltac:(cbn; lia) ltac:(cbn; lia) ltac:(cbn; discriminate)
              ltac:(small)
              ltac:(small) eq_refl)
    as (f' & Hread & _ & Hseek).
  exists f'. split; [exact Hread | exact Hseek].
Defined.

Lemma Read_at_end_witness :
  Read (env := Sim.E1) Sim.read_to_end 5 []
  = ((Returned "" (Some EOF), Sim.read_to_end), []).
Proof.
  exact (Read_at_end (env := Sim.E1) Sim.read_to_end {| s := "hello"; i := 5 |}
           5 [] eq_refl ltac:(cbn; lia) ltac:(cbn; discriminate)
           ltac:(small)
           ltac:(small) eq_refl).
Defined.

Lemma Read_without_autofetch_witness :
  Read (env := Sim.E1) Sim.manual_0_2 5 []
  = ((Returned "" (Some (errNotFetched 0 5 0 2 0)), Sim.manual_0_2), [])
  /\ Error (errNotFetched 0 5 0 2 0)
     = Some "s3vfs: range 0-5 not fetched (0-2 fetched; offset 0)".
Proof.
  destruct (Read_without_autofetch (env := Sim.E1) Sim.manual_0_2 5 [] eq_refl)
    as [_ H].
  split; [| reflexivity].
  exact (proj1 (H {| s := "hel"; i := 0 |} eq_refl
                  ltac:(cbn; split; discriminate) eq_refl)).
Defined.

Lemma Fetch_then_Read_prefix_witness :
  exists b,
    rc Sim.fetched_0_2 = Some {| s := b; i := 0 |}
    /\ fst (fst (Read (env := Sim.E1) Sim.fetched_0_2 2 Sim.after_fetch_0_2))
       = Returned "he" None.
Proof.
  destruct (Fetch_then_Read_prefix (env := Sim.E1)
              (Sim.fresh "a/b.txt") Sim.fetched_0_2 0 2 2 [] Sim.after_fetch_0_2
              eq_refl eq_refl ltac:(small)
              ltac:(small) ltac:(cbn; lia))
    as (b & Hrc & _ & Hread).
  exists b. split; [exact Hrc |]. rewrite Hread.
  injection Hrc as <-. reflexivity.
Defined.

Lemma Fetch_idempotent_witness :
  Fetch (env := Sim.E1) Sim.fetched_0_2 1 2 [] = ((None, Sim.fetched_0_2), []).
Proof.
  exact (Fetch_idempotent (env := Sim.E1) (Sim.fresh "a/b.txt") Sim.fetched_0_2
           0 2 [] _ ltac:(lia) eq_refl 1 2 [] ltac:(lia) ltac:(lia) ltac:(lia)).
Defined.

Lemma Fetch_inverted_span_witness :
  exists err f' w',
    Fetch (env := Sim.E1) Sim.fetched_0_2 3 1 [] = ((err, f'), w')
    /\ network w'
       = [EvRoundTrip {| Method := GET; Target := "https://s3.test/bucket/a/b.txt";
                         Range := Some "bytes=3-1" |}].
Proof.
  destruct (Fetch_inverted_span (env := Sim.E1) Sim.fetched_0_2 3 1 []
              ltac:(lia)) as (err & f' & w' & Hrun & Hnet & _).
  exists err, f', w'. split; [exact Hrun | exact Hnet].
Defined.

Lemma Fetch_window_witness :
  Fetch (env := Sim.E1) Sim.fetched_0_2 0 1 [] = ((None, Sim.fetched_0_2), [])
  /\ exists err f' w',
       Fetch (env := Sim.E1) Sim.fetched_0_2 0 5 [] = ((err, f'), w')
       /\ network w'
          = [EvRoundTrip {| Method := GET;
                            Target := "https://s3.test/bucket/a/b.txt";
                            Range := Some "bytes=0-5" |}].
Proof.
  split.
  - exact (proj1 (Fetch_window (env := Sim.E1) Sim.fetched_0_2 0 1 []) eq_refl).
  - destruct (proj2 (Fetch_window (env := Sim.E1) Sim.fetched_0_2 0 5 []) eq_refl)
      as (err & f' & w' & Hrun & Hnet & _).
    exists err, f', w'. split; [exact Hrun | exact Hnet].
Defined.

Lemma rangeTransport_never_partial_witness :
  let req := {| Method := GET; Target := "https://s3.test/bucket/a/b.txt";
                Range := None |} in
  let gone := {| Method := GET; Target := "https://s3.test/bucket/nope";
                 Range := None |} in
  (exists a, Sim.serve Sim.store1 "" []
               {| Method := GET; Target := Target req;
                  Range := Some "bytes=0-2" |} = inr a
             /\ reply_status a = 206)
  /\ (exists resp,
        RoundTrip (env := Sim.E1) (rangeTransport None "bytes=0-2") req []
        = (inr resp,
           [EvRoundTrip {| Method := GET; Target := Target req;
                           Range := Some "bytes=0-2" |}])
        /\ StatusCode resp = 200
        /\ RespBody resp = {| src := Sim.body_of "hel"; closed := false |})
  /\ (exists resp,
        RoundTrip (env := Sim.E1) (rangeTransport None "bytes=0-2") gone []
        = (inr resp,
           [EvRoundTrip {| Method := GET; Target := Target gone;
                           Range := Some "bytes=0-2" |}])
        /\ StatusCode resp = 404).
Proof.
  intros req gone. split; [eexists; split; reflexivity |]. split.
  - destruct (proj1 (proj2 (rangeTransport_never_partial (env := Sim.E1)
                              None "bytes=0-2" req []))
                (response_of (Sim.reply 206 "hel")) _ eq_refl)
      as (resp & Hrun & Hst & _ & _ & _ & Hbody).
    exists resp. split; [exact Hrun |]. split; [exact Hst | exact Hbody].
  - destruct (proj1 (proj2 (rangeTransport_never_partial (env := Sim.E1)
                              None "bytes=0-2" gone []))
                (response_of (Sim.reply 404 "NoSuchKey")) _ eq_refl)
      as (resp & Hrun & Hst & _).
    exists resp. split; [exact Hrun | exact Hst].
Defined.

Lemma ranged_open_partial_content_witness :
  fst (S3FS_open (env := Sim.E1) Sim.the_fs "a/b.txt" "bytes=1-3" [])
  = inr {| s := "ell"; i := 0 |}.
Proof.
  destruct (ranged_open_partial_content (env := Sim.E1) Sim.the_fs "a/b.txt"
              "bytes=1-3" [] (Sim.reply 206 "ell")
              ltac:(discriminate) I eq_refl eq_refl) as [H _].
  rewrite (H (or_introl eq_refl)). reflexivity.
Defined.

Lemma Open_outcomes_witness :
  Open (env := Sim.E1) Sim.the_fs "a/b.txt" []
  = (inr {| s := "hello"; i := 0 |},
     [EvRoundTrip {| Method := GET; Target := "https://s3.test/bucket/a/b.txt";
                     Range := None |};
      EvRead (Sim.body_of "hello"); EvClose (Sim.body_of "hello")])
  /\ Open (env := Sim.E1) Sim.the_fs "nope" []
     = (inl (PathError "open" "https://s3.test/bucket/nope"
               (s3utilError 404 "NoSuchKey")),
        [EvRoundTrip {| Method := GET; Target := "https://s3.test/bucket/nope";
                        Range := None |};
         EvRead (Sim.body_of "NoSuchKey"); EvClose (Sim.body_of "NoSuchKey")]).
Proof.
  split.
  - exact (Open_outcomes (env := Sim.E1) Sim.the_fs "a/b.txt" [] I).
  - exact (Open_outcomes (env := Sim.E1) Sim.the_fs "nope" [] I).
Defined.

Lemma Lstat_listing_refused_witness :
  fst (Lstat (env := Sim.E1) Sim.forbidden_fs "a/b.txt" [])
  = inl (PathError "lstat" "https://s3.test/bucket/a/b.txt" (respError 403 "")).
Proof.
  assert (Hnot : normalize "a/b.txt" <> ".") by (vm_compute; discriminate).
  rewrite (Lstat_listing_refused (env := Sim.E1) Sim.forbidden_fs "a/b.txt" []
             (Sim.reply 403 "AccessDenied") Hnot I eq_refl eq_refl
             ltac:(discriminate)).
  reflexivity.
Defined.

Lemma ReadDir_entries_witness :
  exists out,
    fst (ReadDir (env := Sim.E_dir) Sim.the_fs "a" []) = inr out
    /\ List.map fi_name out = ["b.txt"; "sub"]
    /\ List.map fi_size out = [5; 0].
Proof.
  destruct (proj1 (ReadDir_entries (env := Sim.E_dir) Sim.the_fs "a" [] eq_refl)
              Sim.listed eq_refl) as (out & Hrun & Hall).
  exists out. rewrite Hrun. split; [reflexivity |].
  injection Hrun as <-. split; reflexivity.
Defined.

Lemma Read_failed_autofetch_witness :
  exists f',
    Read (env := Sim.E1) Sim.stale 5 []
    = ((Returned "" (Some (PathError "open" "https://s3.test/bucket/nope"
                             (s3utilError 404 "NoSuchKey"))), f'),
       [EvStreamClose {| s := "hel"; i := 0 |};
        EvRoundTrip {| Method := GET; Target := "https://s3.test/bucket/nope";
                       Range := Some "bytes=0-25" |};
        EvRead (Sim.body_of "NoSuchKey"); EvClose (Sim.body_of "NoSuchKey")])
    /\ rc f' = None
    /\ Read (env := Sim.E1) f' 1 [] = ((Returned "" (Some errMustFetch), f'), []).
Proof.
  eexists.
  destruct (Read_failed_autofetch (env := Sim.E1) Sim.stale _
              {| s := "hel"; i := 0 |} 5 [] _ _ eq_refl eq_refl
              ltac:(cbn; split; discriminate)
              ltac:(small)
              ltac:(small) eq_refl eq_refl)
    as (Hread & Hrc & _ & _ & Hlater).
  split; [exact Hread |]. split; [exact Hrc | apply Hlater].
Defined.

Lemma Read_autofetched_bytes_witness :
  fst (fst (Read (env := Sim.E1) Sim.fetched_0_2 5 [])) = Returned "hello" None.
Proof.
  destruct (Read_autofetched_bytes (env := Sim.E1) Sim.fetched_0_2 _
              {| s := "hel"; i := 0 |} 5 [] _ eq_refl eq_refl
              ltac:(cbn; split; discriminate)
              ltac:(small)
              ltac:(small) eq_refl eq_refl)
    as (b & Hrc & _ & _ & Hread).
  rewrite Hread. injection Hrc as <-. reflexivity.
Defined.

Lemma Read_never_panics_witness :
  fst (fst (Read (env := Sim.E1) Sim.stale 5 [])) <> Panicked
  /\ fst (fst (Read (env := Sim.E1) Sim.read_to_end 30 [])) <> Panicked.
Proof.
  split.
  - exact (Read_never_panics (env := Sim.E1) Sim.stale 5 []).
  - exact (Read_never_panics (env := Sim.E1) Sim.read_to_end 30 []).
Defined.

(** On the simulated bucket [Lstat] of [/] asks twice and reports that
    nothing is there. *)
Lemma Lstat_slash_witness :
  Lstat (env := Sim.E1) Sim.the_fs "/" []
  = (inl (PathError "lstat" "https://s3.test/bucket" ErrNotExist),
     [EvRoundTrip {| Method := GET;
                     Target := "https://s3.test/bucket?prefix=/&max-keys=1";
                     Range := None |};
      EvRead (Sim.body_of ""); EvClose (Sim.body_of "");
      EvRoundTrip {| Method := HEAD; Target := "https://s3.test/bucket";
                     Range := None |};
      EvClose (Sim.body_of "")])
  /\ exists tl,
       snd (Lstat (env := Sim.E1) Sim.the_fs "/" [])
       = (EvRoundTrip {| Method := GET;
                         Target := "https://s3.test/bucket?prefix=/&max-keys=1";
                         Range := None |} :: tl)%list.
Proof.
  split; [reflexivity |].
  destruct (Lstat_slash_asks_backend (env := Sim.E1) Sim.the_fs [] eq_refl)
    as (_ & tl & Htl).
  exists tl. exact Htl.
Defined.

(** On a server that lists both keys under [p/], [Lstat] of [p] probes
    the key and reports that nothing is there. *)
Lemma Lstat_many_keys_witness :
  xml_Decode (Env := Sim.E_many)
    (Sim.listing_all Sim.store3 "https://s3.test/bucket?prefix=p/&max-keys=1")
  = inr ["p/x"; "p/y"]
  /\ Lstat (env := Sim.E_many) Sim.the_fs "p" []
     = (inl (PathError "lstat" "https://s3.test/bucket/p" ErrNotExist),
        [EvRoundTrip {| Method := GET;
                        Target := "https://s3.test/bucket?prefix=p/&max-keys=1";
                        Range := None |};
         EvRead (Sim.body_of ("p/x" ++ String Sim.nl ("p/y" ++ String Sim.nl "")));
         EvClose (Sim.body_of ("p/x" ++ String Sim.nl ("p/y" ++ String Sim.nl "")));
         EvRoundTrip {| Method := HEAD; Target := "https://s3.test/bucket/p";
                        Range := None |};
         EvClose (Sim.body_of "")]).
Proof.
  split; [reflexivity |].
  assert (Hnot : normalize "p" <> ".") by (vm_compute; discriminate).
  destruct (Lstat_many_keys_probes (env := Sim.E_many) Sim.the_fs "p" [] _
              ["p/x"; "p/y"] Hnot eq_refl (le_n 2)) as (_ & _ & HL).
  rewrite HL. reflexivity.
Defined.
